(** * db_validation: reconciliation of a source extract against a warehouse extract

    A shallow embedding of [db_validation.py]: the transformation rules,
    the table model, the key-based outer join, duplicate detection, the
    column-overlap analyser, the report metrics, the output files and
    the parser of the query file, followed by the properties
    established about them.

    Conventions.
    - A Python [str] is a [string]; each character stands for the code
      point of the same number (the Latin-1 block).  Code points above
      255 are outside the model.
    - A Python [float] is a binary64 [spec_float]; [np.nan] is
      [S754_nan].
    - An exception is a value [Err e]; a function that can raise returns
      [result]. *)

From Stdlib Require Import ZArith String Ascii List Lia SpecFloat DecimalString.
From stdpp Require Import base decidable option list sorting strings gmap.

Local Open Scope string_scope.
Local Open Scope Z_scope.

(** ** Exceptions *)

Inductive pyerr : Type :=
  | AttributeError
  | IndexError
  | KeyError
  | OverflowError
  | TypeError
  | ValueError
  | ZeroDivisionError.

Inductive result (A : Type) : Type :=
  | Ok (a : A)
  | Err (e : pyerr).

Arguments Ok {A} a.
Arguments Err {A} e.

(** Sequencing: the first exception raised is the one propagated. *)
#[global] Instance result_ret : MRet result := fun _ a => Ok a.
#[global] Instance result_bind : MBind result := fun _ _ k m =>
  match m with
  | Ok a => k a
  | Err e => Err e
  end.

(** [map] of a function that can raise: the first exception, in list
    order, aborts the traversal. *)
Fixpoint rmap {A B : Type} (f : A -> result B) (l : list A) : result (list B) :=
  match l with
  | [] => Ok []
  | a :: l' => b ← f a; bs ← rmap f l'; Ok (b :: bs)
  end.

(** ** Python scalars *)

(** The values a cell of a frame or a rule parameter can hold: [None],
    a [str], an [int], a [float]. *)
Inductive scalar : Type :=
  | VNone
  | VStr (s : string)
  | VInt (z : Z)
  | VFloat (f : spec_float).

#[global] Instance spec_float_eq_dec : EqDecision spec_float.
Proof. solve_decision. Defined.

#[global] Instance scalar_eq_dec : EqDecision scalar.
Proof. solve_decision. Defined.

(** [np.nan], the canonical null marker of a frame. *)
Definition NaN : scalar := VFloat S754_nan.

Definition is_nan (v : scalar) : bool :=
  match v with
  | VFloat S754_nan => true
  | _ => false
  end.

(** ** binary64 arithmetic *)

Definition prec : Z := 53.
Definition emax : Z := 1024.

Definition is_infinity (f : spec_float) : bool :=
  match f with
  | S754_infinity _ => true
  | _ => false
  end.

(** The double nearest to [n / d] for [d > 0] (ties to even); [szero]
    is the sign given to a zero result. *)
Definition float_of_ratio (szero : bool) (n d : Z) : spec_float :=
  match n with
  | Z0 => S754_zero szero
  | _ =>
    let '(q, e, l) := SFdiv_core_binary prec emax (Z.abs n) 0 d 0 in
    binary_round_aux prec emax (n <? 0) q e l
  end.

(** [float(z)] for an [int]: the nearest double, or [OverflowError]. *)
Definition float_of_int (z : Z) : result spec_float :=
  let f := binary_normalize prec emax z 0 false in
  if is_infinity f then Err OverflowError else Ok f.

(** [a / b] on two [int]s. *)
Definition int_truediv (a b : Z) : result spec_float :=
  if b =? 0 then Err ZeroDivisionError
  else
    let f := float_of_ratio false (a * Z.sgn b) (Z.abs b) in
    if is_infinity f then Err OverflowError else Ok f.

Definition is_zero (f : spec_float) : bool :=
  match f with
  | S754_zero _ => true
  | _ => false
  end.

(** [x / y] on two [float]s. *)
Definition float_truediv (x y : spec_float) : result spec_float :=
  if is_zero y then Err ZeroDivisionError else Ok (SFdiv prec emax x y).

Definition float_mul (x y : spec_float) : spec_float := SFmul prec emax x y.

(** [n / d] rounded to the nearest integer, ties to even ([d > 0]). *)
Definition div_half_even (n d : Z) : Z :=
  let q := n / d in
  let r := n mod d in
  match 2 * r ?= d with
  | Lt => q
  | Gt => q + 1
  | Eq => if Z.even q then q else q + 1
  end.

(** [round(x, ndigits)] on a [float] with an [int] [ndigits]: the
    exact binary value is rounded half-even at that decimal place and
    the decimal result is read back as the nearest double. *)
Definition float_round (x : spec_float) (ndigits : Z) : result spec_float :=
  match x with
  | S754_finite s m e =>
    if 323 <? ndigits then Ok x
    else if ndigits <? -308 then Ok (S754_zero s)
    else
      let num := Z.pos m * 2 ^ Z.max e 0 * 10 ^ Z.max ndigits 0 in
      let den := 2 ^ Z.max (- e) 0 * 10 ^ Z.max (- ndigits) 0 in
      let q := div_half_even num den in
      let q' := if s then - q else q in
      let f := float_of_ratio s (q' * 10 ^ Z.max (- ndigits) 0) (10 ^ Z.max ndigits 0) in
      if is_infinity f then Err OverflowError else Ok f
  | _ => Ok x
  end.

(** [round(x)] with [ndigits] [None]: the nearest [int], ties to even. *)
Definition float_round_int (x : spec_float) : result Z :=
  match x with
  | S754_nan => Err ValueError
  | S754_infinity _ => Err OverflowError
  | S754_zero _ => Ok 0
  | S754_finite s m e =>
    let q := div_half_even (Z.pos m * 2 ^ Z.max e 0) (2 ^ Z.max (- e) 0) in
    Ok (if s then - q else q)
  end.

(** ** Equality of scalars *)

(** A number in lowest binary terms, so that [7], [7.0] and [-0.0],
    [0] each have one representation. *)
Inductive num : Type :=
  | NumNaN
  | NumInf (s : bool)
  | NumZero
  | NumFin (s : bool) (m : positive) (e : Z).

Fixpoint norm_pos (m : positive) (e : Z) : positive * Z :=
  match m with
  | xO m' => norm_pos m' (e + 1)
  | _ => (m, e)
  end.

Definition num_fin (s : bool) (m : positive) (e : Z) : num :=
  let '(m', e') := norm_pos m e in NumFin s m' e'.

Definition num_of_int (z : Z) : num :=
  match z with
  | Z0 => NumZero
  | Zpos p => num_fin false p 0
  | Zneg p => num_fin true p 0
  end.

Definition num_of_float (f : spec_float) : num :=
  match f with
  | S754_nan => NumNaN
  | S754_infinity s => NumInf s
  | S754_zero _ => NumZero
  | S754_finite s m e => num_fin s m e
  end.

(** What a hash table (pandas' factorisation of key columns) sees of a
    scalar: equal numbers coincide whatever their type, and a missing
    value, [None] or [nan], is one key like any other. *)
Inductive atom : Type :=
  | AStr (s : string)
  | ANum (n : num).

Definition atom_of (v : scalar) : atom :=
  match v with
  | VNone => ANum NumNaN
  | VStr s => AStr s
  | VInt z => ANum (num_of_int z)
  | VFloat f => ANum (num_of_float f)
  end.

#[global] Instance num_eq_dec : EqDecision num.
Proof. solve_decision. Defined.

#[global] Instance atom_eq_dec : EqDecision atom.
Proof. solve_decision. Defined.

(** Python's [a == b] on scalars: as the hash table, except that [nan]
    equals nothing, itself included. *)
Definition py_eq (a b : scalar) : bool :=
  negb (is_nan a) && negb (is_nan b) && bool_decide (atom_of a = atom_of b).

(** ** Strings *)

Definition code (c : ascii) : N := N_of_ascii c.

Definition in_range (lo hi : N) (c : ascii) : bool :=
  ((lo <=? code c) && (code c <=? hi))%N.

Definition is_decimal (c : ascii) : bool := in_range 48 57 c.

(** [str.isnumeric] on one character of the Latin-1 block: the decimal
    digits, the superscripts 1, 2, 3 and the vulgar fractions. *)
Definition is_numeric_char (c : ascii) : bool :=
  is_decimal c || in_range 178 179 c || in_range 185 185 c || in_range 188 190 c.

Fixpoint str_all (p : ascii -> bool) (s : string) : bool :=
  match s with
  | EmptyString => true
  | String c s' => p c && str_all p s'
  end.

Definition isnumeric (s : string) : bool :=
  negb (String.eqb s "") && str_all is_numeric_char s.

Fixpoint mem_char (c : ascii) (chars : string) : bool :=
  match chars with
  | EmptyString => false
  | String d chars' => Ascii.eqb c d || mem_char c chars'
  end.

(** [s.lstrip(chars)] *)
Fixpoint lstrip (chars s : string) : string :=
  match s with
  | EmptyString => EmptyString
  | String c s' => if mem_char c chars then lstrip chars s' else s
  end.

(** [sub in s] *)
Fixpoint contains (sub s : string) : bool :=
  String.prefix sub s ||
  match s with
  | EmptyString => false
  | String _ s' => contains sub s'
  end.

(** [s.replace(old, '')]: occurrences of [old] are removed left to
    right without overlap; [skip] counts the characters of a match still
    to drop. *)
Fixpoint remove_from (old s : string) (skip : nat) : string :=
  match s with
  | EmptyString => EmptyString
  | String c s' =>
    match skip with
    | S k => remove_from old s' k
    | O =>
      if String.prefix old s
      then remove_from old s' (Nat.pred (String.length old))
      else String c (remove_from old s' O)
    end
  end.

Definition str_remove (old s : string) : string :=
  match old with
  | EmptyString => s
  | _ => remove_from old s O
  end.

(** [s.split(sep)[0]] for a one-character [sep] *)
Fixpoint before_sep (sep : ascii) (s : string) : string :=
  match s with
  | EmptyString => EmptyString
  | String c s' => if Ascii.eqb c sep then EmptyString else String c (before_sep sep s')
  end.

Definition digit_value (c : ascii) : Z := Z.of_N (code c) - 48.

(** Reads a run of decimal digits: the value accumulated on [acc], the
    number of digits read, and the rest of the string. *)
Fixpoint take_digits (s : string) (acc : Z) (n : Z) : Z * Z * string :=
  match s with
  | String c s' =>
    if is_decimal c then take_digits s' (10 * acc + digit_value c) (n + 1)
    else (acc, n, s)
  | EmptyString => (acc, n, s)
  end.

(** The longest run of digits [int] converts (CPython 3.11, and the
    security releases of 3.7 to 3.10, with the default
    [sys.int_max_str_digits]). *)
Definition int_max_str_digits : Z := 4300.

(** [int(s)] for an [s] that passed [isnumeric]: only a run of decimal
    digits is an integer literal, and a run longer than the limit is
    refused. *)
Definition int_of_numeric (s : string) : result Z :=
  match take_digits s 0 0 with
  | (z, n, EmptyString) => if int_max_str_digits <? n then Err ValueError else Ok z
  | _ => Err ValueError
  end.

Definition str_of_int (z : Z) : string := NilZero.string_of_int (Z.to_int z).

(** ** [float(s)] on a string *)

(** White space as [float] sees it: tab to carriage return and the
    space; the two Latin-1 spaces above 127 are first turned into a
    space. *)
Definition is_float_space (c : ascii) : bool :=
  in_range 9 13 c || in_range 32 32 c || in_range 133 133 c || in_range 160 160 c.

Fixpoint lstrip_space (s : string) : string :=
  match s with
  | EmptyString => EmptyString
  | String c s' => if is_float_space c then lstrip_space s' else s
  end.

Fixpoint rstrip_space (s : string) : string :=
  match s with
  | EmptyString => EmptyString
  | String c s' =>
    match rstrip_space s' with
    | EmptyString => if is_float_space c then EmptyString else String c EmptyString
    | r => String c r
    end
  end.

(** Digit grouping: an underscore is dropped when it stands between
    two digits, and refused anywhere else.  [prev] is the character
    before [s]. *)
Fixpoint drop_underscores (prev : ascii) (s : string) : option string :=
  match s with
  | EmptyString => if Ascii.eqb prev "_" then None else Some EmptyString
  | String c s' =>
    if Ascii.eqb c "_" then
      if is_decimal prev then drop_underscores c s' else None
    else if Ascii.eqb prev "_" && negb (is_decimal c) then None
    else String c <$> drop_underscores c s'
  end.

Definition ascii_lower (c : ascii) : ascii :=
  if in_range 65 90 c then ascii_of_N (code c + 32) else c.

Fixpoint str_lower (s : string) : string :=
  match s with
  | EmptyString => EmptyString
  | String c s' => String (ascii_lower c) (str_lower s')
  end.

Definition take_sign (s : string) : bool * string :=
  match s with
  | String c s' =>
    if Ascii.eqb c "-" then (true, s')
    else if Ascii.eqb c "+" then (false, s')
    else (false, s)
  | EmptyString => (false, s)
  end.

(** An exponent part is read only when it has at least one digit. *)
Definition take_exponent (s : string) : Z * string :=
  match s with
  | String c t =>
    if Ascii.eqb (ascii_lower c) "e" then
      let '(eneg, t1) := take_sign t in
      let '(x, nx, t2) := take_digits t1 0 0 in
      if nx =? 0 then (0, s) else (if eneg then - x else x, t2)
    else (0, s)
  | EmptyString => (0, s)
  end.

(** A decimal literal: digits, an optional point and digits, an
    optional exponent, with a digit on one side of the point at least;
    otherwise [inf], [infinity] or [nan] in any case. *)
Definition parse_float (s : string) : option spec_float :=
  let '(neg, s1) := take_sign s in
  let '(i, ni, s2) := take_digits s1 0 0 in
  let '(m, nf, s3) :=
    match s2 with
    | String "." t => take_digits t i 0
    | _ => (i, 0, s2)
    end in
  if ni + nf =? 0 then
    let w := str_lower s1 in
    if String.eqb w "inf" || String.eqb w "infinity" then Some (S754_infinity neg)
    else if String.eqb w "nan" then Some S754_nan
    else None
  else
    let '(ex, s4) := take_exponent s3 in
    match s4 with
    | EmptyString =>
      let p := ex - nf in
      let n := m * 10 ^ Z.max p 0 in
      Some (float_of_ratio neg (if neg then - n else n) (10 ^ Z.max (- p) 0))
    | _ => None
    end.

Definition float_of_str (s : string) : result spec_float :=
  match drop_underscores "000" s with
  | None => Err ValueError
  | Some s' =>
    match parse_float (rstrip_space (lstrip_space s')) with
    | Some f => Ok f
    | None => Err ValueError
    end
  end.

(** [float(x)] *)
Definition py_float (x : scalar) : result spec_float :=
  match x with
  | VNone => Err TypeError
  | VStr s => float_of_str s
  | VInt z => float_of_int z
  | VFloat f => Ok f
  end.

(** [round(x, ndigits)] on a [float] *)
Definition py_round (x : spec_float) (ndigits : scalar) : result scalar :=
  match ndigits with
  | VNone => z ← float_round_int x; Ok (VInt z)
  | VInt n => f ← float_round x n; Ok (VFloat f)
  | _ => Err TypeError
  end.

(** ** Frames *)

(** A pandas [DataFrame]: the column labels and the rows, each row
    aligned with the labels.  A label names the first column that
    carries it; row labels (the index) are positions. *)
Record DataFrame : Type := {
  columns : list string;
  rows : list (list scalar)
}.

Fixpoint col_index (c : string) (cols : list string) : option nat :=
  match cols with
  | [] => None
  | d :: cols' => if String.eqb c d then Some O else S <$> col_index c cols'
  end.

Definition has_column (c : string) (cols : list string) : bool :=
  bool_decide (c ∈ cols).

(** The cell of [row] under label [c]; a missing cell reads as [nan]. *)
Definition cell (cols : list string) (row : list scalar) (c : string) : scalar :=
  match col_index c cols with
  | Some i => nth i row NaN
  | None => NaN
  end.

(** [df[c] = df[c].apply(f)] for a column [c] of the frame: [f] runs on
    every row in order, and the frame is rebuilt only if no call raised. *)
Definition apply_column (f : scalar -> result scalar) (c : string) (df : DataFrame)
  : result DataFrame :=
  match col_index c (columns df) with
  | None => Err KeyError
  | Some i =>
    rs ← rmap (fun row => v ← f (nth i row NaN); Ok (<[i := v]> row)) (rows df);
    Ok {| columns := columns df; rows := rs |}
  end.

(** [df.rename(columns=mapping)] *)
Definition rename (mapping : gmap string string) (df : DataFrame) : DataFrame :=
  {| columns := (fun c => default c (mapping !! c)) <$> columns df;
     rows := rows df |}.

(** [df[mask]]: the rows whose flag is set. *)
Fixpoint select {A : Type} (mask : list bool) (l : list A) : list A :=
  match mask, l with
  | b :: mask', a :: l' => if b then a :: select mask' l' else select mask' l'
  | _, _ => []
  end.

(** The key of a row: what the hash table sees of its cells under the
    key columns. *)
Definition row_key (cols : list string) (on : list string) (row : list scalar)
  : list atom :=
  (fun c => atom_of (cell cols row c)) <$> on.

Definition frame_keys (df : DataFrame) (on : list string) : list (list atom) :=
  row_key (columns df) on <$> rows df.

(** *** [df.duplicated(subset)] *)

(** With the default [keep='first'], a row is flagged when its key has
    already been seen in an earlier row. *)
Fixpoint dup_mask (seen : list (list atom)) (ks : list (list atom)) : list bool :=
  match ks with
  | [] => []
  | k :: ks' => bool_decide (k ∈ seen) :: dup_mask (k :: seen) ks'
  end.

Definition all_columns (on cols : list string) : bool :=
  forallb (fun c => has_column c cols) on.

Definition is_nil {A : Type} (l : list A) : bool :=
  match l with
  | [] => true
  | _ => false
  end.

Definition duplicated (df : DataFrame) (subset : list string) : result (list bool) :=
  if is_nil (rows df) || is_nil (columns df) then Ok []
  else if negb (all_columns subset (columns df)) then Err KeyError
  else if is_nil subset then Err ValueError
  else Ok (dup_mask [] (frame_keys df subset)).

(** *** [left.merge(right, how='outer', on=on, indicator=True)] *)

Inductive indicator : Type :=
  | left_only
  | right_only
  | both.

#[global] Instance indicator_eq_dec : EqDecision indicator.
Proof. solve_decision. Defined.

(** A row of the merged frame: the cells that came from the left frame
    ([c_x] for a column [c] of both frames), those that came from the
    right frame ([c_y]), and the [_merge] column.  The side that is
    absent holds [nan] throughout. *)
Record merged_row : Type := {
  mr_x : list scalar;
  mr_y : list scalar;
  mr_merge : indicator
}.

Record Merged : Type := {
  m_xcols : list string;
  m_ycols : list string;
  m_on : list string;
  m_rows : list merged_row
}.

Definition nan_row (cols : list string) : list scalar :=
  replicate (length cols) NaN.

Definition matches (right : DataFrame) (on : list string) (k : list atom)
  : list (list scalar) :=
  filter (fun r => row_key (columns right) on r = k) (rows right).

Definition join_left (left right : DataFrame) (on : list string) (l : list scalar)
  : list merged_row :=
  match matches right on (row_key (columns left) on l) with
  | [] => [ {| mr_x := l; mr_y := nan_row (columns right); mr_merge := left_only |} ]
  | ms => (fun r => {| mr_x := l; mr_y := r; mr_merge := both |}) <$> ms
  end.

Definition unmatched_right (left right : DataFrame) (on : list string)
  : list (list scalar) :=
  filter (fun r => row_key (columns right) on r ∉ frame_keys left on) (rows right).

(** The rows of the outer join: every pair of a left and a right row
    with the same key, every left row without a partner, every right
    row without a partner.  pandas returns them sorted by key; nothing
    below depends on their order. *)
Definition merge_rows (left right : DataFrame) (on : list string) : list merged_row :=
  (rows left ≫= join_left left right on) ++
  ((fun r => {| mr_x := nan_row (columns left); mr_y := r; mr_merge := right_only |})
     <$> unmatched_right left right on).

(** The dtype of a key column, as far as [merge] looks at it.  A frame
    here carries no dtype, the cells tell it: a column that holds text
    is an [object] column; a column that holds numbers and no text is
    what a rule ([cast_int], [round]) left, with a numeric dtype; a
    column of nulls only, or without a row, is taken as [read_csv] made
    it, an [object] column that merges with any other. *)
Definition is_text (v : scalar) : bool :=
  match v with
  | VStr _ | VNone => true
  | _ => false
  end.

Definition is_number (v : scalar) : bool :=
  match v with
  | VInt _ => true
  | VFloat f => negb (is_nan v)
  | _ => false
  end.

Definition column_cells (df : DataFrame) (c : string) : list scalar :=
  (fun row => cell (columns df) row c) <$> rows df.

Definition text_column (df : DataFrame) (c : string) : bool :=
  existsb is_text (column_cells df c).

Definition numeric_column (df : DataFrame) (c : string) : bool :=
  existsb is_number (column_cells df c) && negb (text_column df c).

(** [merge] refuses to join a key column of text with one of numbers. *)
Definition incompatible_keys (left right : DataFrame) (on : list string) : bool :=
  existsb (fun c => text_column left c && numeric_column right c
                    || numeric_column left c && text_column right c) on.

(** The checks come in this order: a key that is not a column of both
    frames ([KeyError]), an empty key ([IndexError]), key columns of
    text on one side and of numbers on the other ([ValueError]). *)
Definition merge (left right : DataFrame) (on : list string) : result Merged :=
  if negb (all_columns on (columns left) && all_columns on (columns right))
  then Err KeyError
  else if is_nil on then Err IndexError
  else if incompatible_keys left right on then Err ValueError
  else Ok {| m_xcols := columns left; m_ycols := columns right; m_on := on;
             m_rows := merge_rows left right on |}.

(** [merged[merged['_merge'] == tag]] *)
Definition with_indicator (tag : indicator) (m : Merged) : Merged :=
  {| m_xcols := m_xcols m; m_ycols := m_ycols m; m_on := m_on m;
     m_rows := filter (fun r => mr_merge r = tag) (m_rows m) |}.

(** [df['c_x'] == df['c_y']], row by row.  The two columns exist when
    [c] is a column of both frames outside the join key. *)
Definition overlap_mask (df : Merged) (c : string) : result (list bool) :=
  if has_column c (m_xcols df) && has_column c (m_ycols df) && negb (has_column c (m_on df))
  then Ok ((fun r => py_eq (cell (m_xcols df) (mr_x r) c) (cell (m_ycols df) (mr_y r) c))
             <$> m_rows df)
  else Err KeyError.

(** ** The transformation rules *)

Section Rules.

(** Two library functions are taken as given: [repr] of a finite
    non-zero [float] (sign, mantissa, exponent), the shortest decimal
    that reads back as the same double, and [str.upper]. *)
Variable finite_repr : bool -> positive -> Z -> string.
Variable str_upper : string -> string.

Definition float_repr (f : spec_float) : string :=
  match f with
  | S754_nan => "nan"
  | S754_infinity s => if s then "-inf" else "inf"
  | S754_zero s => if s then "-0.0" else "0.0"
  | S754_finite s m e => finite_repr s m e
  end.

(** [str(x)] *)
Definition py_str (x : scalar) : string :=
  match x with
  | VNone => "None"
  | VStr s => s
  | VInt z => str_of_int z
  | VFloat f => float_repr f
  end.

Definition append_rule (x value : scalar) : scalar :=
  VStr (py_str x +:+ py_str value).

Definition prepend_rule (x value : scalar) : scalar :=
  VStr (py_str value +:+ py_str x).

Definition strip_rule (x value : scalar) : scalar :=
  let x := str_remove (py_str value) (py_str x) in
  if String.eqb x "" then NaN else VStr x.

Definition trunc_date_rule (x : scalar) : scalar :=
  VStr (before_sep " " (py_str x)).

Definition capitalize_rule (x : scalar) : scalar :=
  if py_eq x NaN then x
  else VStr (str_upper (py_str x)).

(** [x.lstrip(chars)]: only a [str] has the method. *)
Definition method_lstrip (x : scalar) (chars : string) : result string :=
  match x with
  | VStr s => Ok (lstrip chars s)
  | _ => Err AttributeError
  end.

Definition cast_int (x : scalar) : result scalar :=
  let x := if py_eq x NaN then VStr "0" else x in
  x ← method_lstrip x "0";
  let x := if String.eqb x "" then "0" else x in
  if isnumeric x
  then z ← int_of_numeric x; Ok (VInt z)
  else Ok (VInt 0).

Definition round_rule (x value : scalar) : result scalar :=
  let x := if py_eq x NaN || py_eq x (VStr "None") then VInt 0 else x in
  f ← py_float x;
  py_round f value.

Definition none_rule (x : scalar) : scalar :=
  if contains "None" (py_str x) then NaN
  else if String.eqb (py_str x) "" then NaN
  else if String.eqb (py_str x) "NA" then NaN
  else if String.eqb (py_str x) "Softbank" then NaN
  else x.

(** ** The table *)

(** One entry of [Rules] in the mapping file.  [r_value] is absent when
    the entry has no ['value'] key. *)
Record Rule : Type := {
  r_target : string;
  r_column : string;
  r_operation : string;
  r_value : option scalar
}.

(** One entry of the mapping file. *)
Record Config : Type := {
  Columns : gmap string string;
  Rules : list Rule;
  PK : list string
}.

Record DB_Table : Type := {
  name : string;
  source : string;
  column_mapping : gmap string string;
  column_rules : list Rule;
  primary_key : list string;
  source_df : DataFrame;
  snow_df : DataFrame;
  common_columns : list string
}.

Definition set_source_df (df : DataFrame) (t : DB_Table) : DB_Table :=
  {| name := name t; source := source t; column_mapping := column_mapping t;
     column_rules := column_rules t; primary_key := primary_key t;
     source_df := df; snow_df := snow_df t; common_columns := common_columns t |}.

Definition set_snow_df (df : DataFrame) (t : DB_Table) : DB_Table :=
  {| name := name t; source := source t; column_mapping := column_mapping t;
     column_rules := column_rules t; primary_key := primary_key t;
     source_df := source_df t; snow_df := df; common_columns := common_columns t |}.

(** [read_mapping_file]: every entry whose key occurs in the table name
    overwrites the three settings, so the last such entry wins. *)
Fixpoint read_mapping_file (table_name : string) (json_dict : list (string * Config))
  (acc : Config) : Config :=
  match json_dict with
  | [] => acc
  | (table, cfg) :: rest =>
    read_mapping_file table_name rest (if contains table table_name then cfg else acc)
  end.

(** [rule['value']] *)
Definition rule_value (rule : Rule) : result scalar :=
  match r_value rule with
  | Some v => Ok v
  | None => Err KeyError
  end.

(** The function a rule applies to its column; [None] for an operation
    that is not known. *)
Definition rule_function (rule : Rule) : result (option (scalar -> result scalar)) :=
  let op := r_operation rule in
  if String.eqb op "append" then v ← rule_value rule; Ok (Some (fun x => Ok (append_rule x v)))
  else if String.eqb op "prepend" then v ← rule_value rule; Ok (Some (fun x => Ok (prepend_rule x v)))
  else if String.eqb op "strip" then v ← rule_value rule; Ok (Some (fun x => Ok (strip_rule x v)))
  else if String.eqb op "capitalize" then Ok (Some (fun x => Ok (capitalize_rule x)))
  else if String.eqb op "trunc_date" then Ok (Some (fun x => Ok (trunc_date_rule x)))
  else if String.eqb op "cast_int" then Ok (Some cast_int)
  else if String.eqb op "round" then v ← rule_value rule; Ok (Some (fun x => round_rule x v))
  else if String.eqb op "none" then Ok (Some (fun x => Ok (none_rule x)))
  else Ok None.

Definition apply_rule (t : DB_Table) (rule : Rule) : result DB_Table :=
  '(df, set_df) ←
    (if String.eqb (r_target rule) "source" then Ok (source_df t, set_source_df)
     else if String.eqb (r_target rule) "snow" then Ok (snow_df t, set_snow_df)
     else Err KeyError);
  if negb (has_column (r_column rule) (columns df)) then Ok t
  else
    f ← rule_function rule;
    match f with
    | Some f => df' ← apply_column f (r_column rule) df; Ok (set_df df' t)
    | None => Ok t
    end.

Fixpoint apply_rules (t : DB_Table) (rules : list Rule) : result DB_Table :=
  match rules with
  | [] => Ok t
  | rule :: rest => t' ← apply_rule t rule; apply_rules t' rest
  end.

(** The loop of [dv_none_rule] over the columns of one frame. *)
Fixpoint none_columns (cols : list string) (df : DataFrame) : result DataFrame :=
  match cols with
  | [] => Ok df
  | c :: rest => df' ← apply_column (fun x => Ok (none_rule x)) c df; none_columns rest df'
  end.

Definition dv_none_rule (t : DB_Table) : result DB_Table :=
  s ← none_columns (columns (source_df t)) (source_df t);
  let t := set_source_df s t in
  w ← none_columns (columns (snow_df t)) (snow_df t);
  Ok (set_snow_df w t).

(** [l.remove(x)]: the first occurrence goes. *)
Fixpoint list_remove (x : string) (l : list string) : list string :=
  match l with
  | [] => []
  | y :: l' => if String.eqb x y then l' else y :: list_remove x l'
  end.

(** [list(set(a) & set(b))]: the labels of both frames, each once, in
    the order the set happens to give. *)
Definition set_intersection (a b : list string) : list string :=
  elements ((list_to_set a : gset string) ∩ list_to_set b).

(** [DB_Table.__init__]; the two frames are the files as [read_csv]
    loaded them and [json_dict] is the mapping file as [json.load]
    returned it. *)
Definition DB_Table_init (source name : string) (source_csv snow_csv : DataFrame)
  (json_dict : list (string * Config)) : result DB_Table :=
  let cfg := read_mapping_file name json_dict
               {| Columns := ∅; Rules := []; PK := [] |} in
  let source_df := rename (Columns cfg) source_csv in
  let common := set_intersection (columns source_df) (columns snow_csv) in
  let common := if has_column "TSTAMP" common then list_remove "TSTAMP" common else common in
  let t := {| name := name; source := source; column_mapping := Columns cfg;
              column_rules := Rules cfg; primary_key := PK cfg;
              source_df := source_df; snow_df := snow_csv;
              common_columns := common |} in
  t ← apply_rules t (Rules cfg);
  if String.eqb source "DATAVISION" then dv_none_rule t else Ok t.

End Rules.

(** ** The column-overlap analyser *)

Definition float_100 : spec_float := binary_normalize prec emax 100 0 false.

Definition count_true (mask : list bool) : Z :=
  Z.of_nat (length (filter (fun b => b = true) mask)).

(** [round(len(overlap_df.index) / len(df.index), 2) * 100.00] *)
Definition match_percent (df : Merged) (mask : list bool) : result spec_float :=
  q ← int_truediv (count_true mask) (Z.of_nat (length (m_rows df)));
  r ← float_round q 2;
  Ok (float_mul r float_100).

(** [d[k] = v] on a [dict], which keeps the position of a key that is
    already there. *)
Fixpoint dict_set {V : Type} (k : string) (v : V) (d : list (string * V))
  : list (string * V) :=
  match d with
  | [] => [(k, v)]
  | (k', v') :: d' => if String.eqb k k' then (k, v) :: d' else (k', v') :: dict_set k v d'
  end.

(** The first loop of [column_overlap]. *)
Fixpoint column_match_dict (df : Merged) (pk cols : list string)
  (d : list (string * spec_float)) : result (list (string * spec_float)) :=
  match cols with
  | [] => Ok d
  | column :: rest =>
    if has_column column pk then column_match_dict df pk rest d
    else
      mask ← overlap_mask df column;
      v ← match_percent df mask;
      column_match_dict df pk rest (dict_set column v d)
  end.

(** [sorted(items, key=lambda item: item[1])]: a stable sort on the
    percentage, smallest first. *)
Fixpoint insert_item (x : string * spec_float) (l : list (string * spec_float))
  : list (string * spec_float) :=
  match l with
  | [] => [x]
  | y :: l' =>
    if SFltb (snd y) (snd x) then y :: insert_item x l' else x :: l
  end.

Definition sorted_items (d : list (string * spec_float)) : list (string * spec_float) :=
  foldr insert_item [] d.

(** The pairs [column_overlap] reports, in the order it reports them. *)
Definition column_overlap_items (df : Merged) (pk common : list string)
  : result (list (string * spec_float)) :=
  d ← column_match_dict df pk common [];
  Ok (sorted_items d).

(** ** Percent variance *)

(** [abs(tot_source - tot_snow) / ((tot_source + tot_snow) / 2) * 100] *)
Definition percent_variance (tot_source tot_snow : Z) : result spec_float :=
  half ← int_truediv (tot_source + tot_snow) 2;
  diff ← float_of_int (Z.abs (tot_source - tot_snow));
  q ← float_truediv diff half;
  Ok (float_mul q float_100).

(** ** The comparison pass and its outputs *)

Inductive Csv : Type :=
  | CsvMerged (m : Merged)
  | CsvFrame (df : DataFrame).

(** What the pass reads and writes besides its arguments: the module
    globals and the files.  The [.csv] outputs and the [.txt] report
    never share a path, so they are kept apart. *)
Record World : Type := {
  location : string;
  today : string;
  current_time : string;
  first_run : bool;
  csv_files : gmap string Csv;
  reports : gmap string string
}.

Definition column_detail : bool := true.

(** A computation that reads and writes the world and may raise; what
    it wrote before raising stays written. *)
Definition M (A : Type) : Type := World -> result A * World.

#[global] Instance M_ret : MRet M := fun _ a w => (Ok a, w).
#[global] Instance M_bind : MBind M := fun _ _ k m w =>
  match m w with
  | (Ok a, w') => k a w'
  | (Err e, w') => (Err e, w')
  end.

Definition lift {A : Type} (r : result A) : M A := fun w => (r, w).

Definition get_world : M World := fun w => (Ok w, w).

Definition to_csv (path : string) (content : Csv) : M unit := fun w =>
  (Ok (),
   {| location := location w; today := today w; current_time := current_time w;
      first_run := first_run w; csv_files := <[path := content]> (csv_files w);
      reports := reports w |}).

(** [open(path, mode)] followed by [first_run = False]: mode ['w']
    empties the file, mode ['a'] keeps what is there. *)
Definition open_report (path : string) : M unit := fun w =>
  let old := if first_run w then "" else default "" (reports w !! path) in
  (Ok (),
   {| location := location w; today := today w; current_time := current_time w;
      first_run := false; csv_files := csv_files w;
      reports := <[path := old]> (reports w) |}).

Definition write_report (path text : string) : M unit := fun w =>
  (Ok (),
   {| location := location w; today := today w; current_time := current_time w;
      first_run := first_run w; csv_files := csv_files w;
      reports := <[path := default "" (reports w !! path) +:+ text]> (reports w) |}).

Definition nl : string := String (ascii_of_N 10) EmptyString.

Record Counts : Type := {
  tot_source : Z;
  tot_snow : Z;
  unique_source : Z;
  unique_snow : Z;
  source_duplicates : Z;
  snow_duplicates : Z;
  identical_records : Z;
  column_overlap_text : string;
  runtime : spec_float
}.

Definition len {A : Type} (l : list A) : Z := Z.of_nat (length l).

Definition unique_records (merged_df : Merged) (table_source table_name : string)
  : M (Z * Z) :=
  w ← get_world;
  let source := with_indicator left_only merged_df in
  let snow := with_indicator right_only merged_df in
  _ ← to_csv (location w +:+ "/OUTPUT/UNIQUE/" +:+ table_source +:+ "/" +:+ table_name +:+ ".csv")
        (CsvMerged source);
  _ ← to_csv (location w +:+ "/OUTPUT/UNIQUE/SNOWFLAKE/" +:+ table_name +:+ ".csv")
        (CsvMerged snow);
  mret (len (m_rows source), len (m_rows snow)).

Definition duplicate_records (table_source table_name : string)
  (source_dupes snow_dupes : DataFrame) : M (Z * Z) :=
  w ← get_world;
  let source_len := len (rows source_dupes) in
  let snow_len := len (rows snow_dupes) in
  _ ← to_csv (location w +:+ "/OUTPUT/DUPLICATES/" +:+ table_source +:+ "/" +:+ table_name +:+ ".csv")
        (CsvFrame source_dupes);
  _ ← to_csv (location w +:+ "/OUTPUT/DUPLICATES/SNOWFLAKE/" +:+ table_name +:+ ".csv")
        (CsvFrame snow_dupes);
  mret (source_len, snow_len).

(** [df[df.duplicated(primary_key)]] *)
Definition duplicate_rows (df : DataFrame) (pk : list string) : result DataFrame :=
  mask ← duplicated df pk;
  Ok {| columns := columns df; rows := select mask (rows df) |}.

Section Report.

(** Text formatting taken as given: [repr] of a finite [float] (as for
    the rules), [str] of a list of strings, and ['{0:.5f}'.format]. *)
Variable finite_repr : bool -> positive -> Z -> string.
Variable repr_list : list string -> string.
Variable format_5f : spec_float -> string.

(** The second loop of [column_overlap]. *)
Fixpoint overlap_lines (items : list (string * spec_float)) (overlap_string : string)
  : string :=
  match items with
  | [] => overlap_string
  | (k, v) :: rest =>
    overlap_lines rest
      (overlap_string +:+ "Column " +:+ k +:+ " = " +:+ float_repr finite_repr v +:+ "%" +:+ nl)
  end.

Definition column_overlap (df : Merged) (table : DB_Table) : result string :=
  items ← column_overlap_items df (primary_key table) (common_columns table);
  Ok (overlap_lines items "").

Definition report_text (table : DB_Table) (metric_dict : Counts) : result string :=
  pv ← percent_variance (tot_source metric_dict) (tot_snow metric_dict);
  Ok ("Table Name: " +:+ name table +:+ nl +:+
      "Table Source: " +:+ source table +:+ nl +:+
      "Columns Used as Primary Key: " +:+ repr_list (primary_key table) +:+ nl +:+
      "Comparison Runtime: " +:+ float_repr finite_repr (runtime metric_dict) +:+ " seconds" +:+ nl +:+
      nl +:+ "###COUNTS###" +:+ nl +:+
      "Source Record Count: " +:+ str_of_int (tot_source metric_dict) +:+ nl +:+
      "Snowflake Record Count: " +:+ str_of_int (tot_snow metric_dict) +:+ nl +:+
      "Difference Count: " +:+ str_of_int (tot_source metric_dict - tot_snow metric_dict) +:+ nl +:+
      "Percent Variance: " +:+ format_5f pv +:+ "%" +:+ nl +:+
      "Number of Identical Matches: " +:+ str_of_int (identical_records metric_dict) +:+ nl +:+
      "Source Duplicate Count: " +:+ str_of_int (source_duplicates metric_dict) +:+ nl +:+
      "Snowflake Duplicate Count: " +:+ str_of_int (snow_duplicates metric_dict) +:+ nl +:+
      "Only in Source Count: " +:+ str_of_int (unique_source metric_dict) +:+ nl +:+
      "Only in Snowflake Count: " +:+ str_of_int (unique_snow metric_dict) +:+ nl +:+
      nl +:+ "---Column Overlap in matching records---" +:+ nl +:+ nl +:+
      column_overlap_text metric_dict +:+ nl +:+
      nl +:+ "==========" +:+ nl +:+ nl).

(** [report]: the file is opened, and [first_run] cleared, before the
    text is computed. *)
Definition report (table : DB_Table) (metric_dict : Counts) : M unit :=
  w ← get_world;
  let path := location w +:+ "/OUTPUT/REPORT_STATS/" +:+ today w +:+ "/report"
              +:+ current_time w +:+ ".txt" in
  _ ← open_report path;
  text ← lift (report_text table metric_dict);
  write_report path text.

(** [compare]; [elapsed] is the wall-clock time the pass took, read
    from the clock just before the report. *)
Definition compare (table : DB_Table) (elapsed : spec_float) : M unit :=
  let tot_source := len (rows (source_df table)) in
  let tot_snow := len (rows (snow_df table)) in
  merge ← lift (merge (source_df table) (snow_df table) (primary_key table));
  '(unique_source, unique_snow) ← unique_records merge (source table) (name table);
  source_dupes ← lift (duplicate_rows (source_df table) (primary_key table));
  snow_dupes ← lift (duplicate_rows (snow_df table) (primary_key table));
  '(source_duplicates, snow_duplicates) ←
    duplicate_records (source table) (name table) source_dupes snow_dupes;
  let identical := with_indicator both merge in
  _ ← to_csv "C:\\Users\debar\Desktop\identical.csv" (CsvMerged identical);
  overlap ← (if column_detail then lift (column_overlap identical table)
             else mret "Column details not selected");
  runtime ← lift (float_round elapsed 2);
  report table
    {| tot_source := tot_source; tot_snow := tot_snow;
       unique_source := unique_source; unique_snow := unique_snow;
       source_duplicates := source_duplicates; snow_duplicates := snow_duplicates;
       identical_records := len (m_rows identical);
       column_overlap_text := overlap; runtime := runtime |}.

End Report.

(** ** The query file *)

(** [s.rstrip(chars)] *)
Fixpoint rstrip (chars s : string) : string :=
  match s with
  | EmptyString => EmptyString
  | String c s' =>
    match rstrip chars s' with
    | EmptyString => if mem_char c chars then EmptyString else String c EmptyString
    | r => String c r
    end
  end.

(** [s.strip(chars)] *)
Definition strip (chars s : string) : string := rstrip chars (lstrip chars s).

(** [s[n:]] *)
Fixpoint str_drop (n : nat) (s : string) : string :=
  match n, s with
  | S n', String _ s' => str_drop n' s'
  | _, _ => s
  end.

(** The loop of [parse_input_sql] over the lines of the file, each with
    its line end, as iterating over the file gives them.  The result of
    [query.replace] on a line without [;] is dropped, so the line ends
    stay in the query. *)
Fixpoint parse_lines (lines : list string) (key query : string)
  (queries : list (string * string)) : list (string * string) :=
  match lines with
  | [] => queries
  | line :: rest =>
    if String.prefix "--" line
    then parse_lines rest (strip nl (str_drop 2 line)) query queries
    else if negb (String.eqb key "") then
      let query := query +:+ line in
      if contains ";" line
      then parse_lines rest "" "" (dict_set key (strip nl query) queries)
      else parse_lines rest key query queries
    else parse_lines rest key query queries
  end.

(** [parse_input_sql] on the lines of [INPUT_SQL_QUERIES.sql]. *)
Definition parse_input_sql (lines : list string) : list (string * string) :=
  parse_lines lines "" "" [].

(** ** Fixtures *)

Module Fixture.

(** A frame with the single column [id]. *)
Definition ids (l : list string) : DataFrame :=
  {| columns := ["id"]; rows := (fun s => [VStr s]) <$> l |}.

(** A frame with the columns [id] and [val]. *)
Definition id_val (l : list (string * string)) : DataFrame :=
  {| columns := ["id"; "val"]; rows := (fun p => [VStr p.1; VStr p.2]) <$> l |}.

(** Four matched rows on which [X] agrees three times and [Y] twice. *)
Definition four_matched : Merged :=
  {| m_xcols := ["id"; "X"; "Y"]; m_ycols := ["id"; "X"; "Y"]; m_on := ["id"];
     m_rows :=
       [ {| mr_x := [VStr "1"; VStr "a"; VStr "p"]; mr_y := [VStr "1"; VStr "a"; VStr "p"];
            mr_merge := both |};
         {| mr_x := [VStr "2"; VStr "b"; VStr "q"]; mr_y := [VStr "2"; VStr "b"; VStr "q"];
            mr_merge := both |};
         {| mr_x := [VStr "3"; VStr "c"; VStr "r"]; mr_y := [VStr "3"; VStr "c"; VStr "R"];
            mr_merge := both |};
         {| mr_x := [VStr "4"; VStr "d"; VStr "s"]; mr_y := [VStr "4"; VStr "D"; VStr "S"];
            mr_merge := both |} ] |}.


(** ASCII upper-casing, an instance of [str.upper]. *)
Definition ascii_upper (s : string) : string :=
  string_of_list_ascii
    ((fun c => if in_range 97 122 c then ascii_of_N (code c - 32) else c)
       <$> list_ascii_of_string s).

(** A stand-in for [repr] of a finite float, for inputs without one. *)
Definition no_repr (s : bool) (m : positive) (e : Z) : string := "".

End Fixture.

(** * Properties *)

(** ** The rules *)

Section RuleFacts.

Variable finite_repr : bool -> positive -> Z -> string.

Lemma none_rule_NaN : none_rule finite_repr NaN = NaN.
Proof. reflexivity. Qed.

(** [none_rule] either nulls its argument or hands it back. *)
Lemma none_rule_cases (x : scalar) :
  none_rule finite_repr x = NaN \/ none_rule finite_repr x = x.
Proof.
  unfold none_rule.
  repeat match goal with
         | |- context [if ?b then _ else _] => destruct b; [by left |]
         end.
  by right.
Qed.

End RuleFacts.

(** C9. [normalize_null] (the rule [none_rule]) is idempotent: applied
    twice to any value it gives what one application gives. *)
Theorem none_rule_idempotent (finite_repr : bool -> positive -> Z -> string) (x : scalar) :
  none_rule finite_repr (none_rule finite_repr x) = none_rule finite_repr x.
Proof.
  destruct (none_rule_cases finite_repr x) as [H | H]; rewrite H.
  - apply none_rule_NaN.
  - exact H.
Qed.

(** No value compares equal to [nan], so the guard [x == np.nan] of the
    rules never fires. *)
Lemma py_eq_NaN_r (x : scalar) : py_eq x NaN = false.
Proof. unfold py_eq. simpl. by rewrite andb_false_r. Qed.

Lemma py_eq_NaN_l (x : scalar) : py_eq NaN x = false.
Proof. reflexivity. Qed.

(** C6. On the null marker [cast_int] raises [AttributeError] where 0
    is expected: its guard [x == np.nan] is false for [nan] too, so
    [lstrip] is called on a float.  On strings it does what is stated:
    leading zeros go, digits are parsed, anything else gives 0. *)
Theorem cast_int_null_raises :
  cast_int NaN = Err AttributeError /\
  cast_int (VStr "007") = Ok (VInt 7) /\
  cast_int (VStr "") = Ok (VInt 0) /\
  cast_int (VStr "abc") = Ok (VInt 0).
Proof. repeat split; reflexivity. Qed.

(** C7. On the null marker [round_rule] returns [nan] where 0.00 is
    expected, for the same guard [x == np.nan].  The token ["None"]
    does give 0.0, and ["3.14159"] the double 3.14. *)
Theorem round_rule_null_is_nan :
  round_rule NaN (VInt 2) = Ok NaN /\
  round_rule (VStr "None") (VInt 2) = Ok (VFloat (S754_zero false)) /\
  round_rule (VStr "3.14159") (VInt 2) = Ok (VFloat (float_of_ratio false 314 100)).
Proof. repeat split; vm_compute; reflexivity. Qed.

(** ** The table invariant *)

Lemma list_remove_NoDup x l : NoDup l -> x ∉ list_remove x l.
Proof.
  induction 1 as [|y l Hy Hl IH]; simpl; [apply not_elem_of_nil|].
  destruct (String.eqb x y) eqn:E.
  - apply String.eqb_eq in E. by subst.
  - apply String.eqb_neq in E. rewrite not_elem_of_cons. by split.
Qed.

Lemma list_remove_subseteq x l : list_remove x l ⊆ l.
Proof.
  induction l as [|y l IH]; simpl; [done|].
  destruct (String.eqb x y); intros z Hz.
  - by right.
  - apply elem_of_cons in Hz as [->|Hz]; [left | right; by apply IH].
Qed.

Section TableFacts.

Variable finite_repr : bool -> positive -> Z -> string.
Variable str_upper : string -> string.

Lemma apply_column_columns f c df df' :
  apply_column f c df = Ok df' -> columns df' = columns df.
Proof.
  unfold apply_column. destruct (col_index c (columns df)); [|done].
  destruct (rmap _ _); simpl; [|done]. by intros [= <-].
Qed.

(** What a rule leaves alone: the labels of both frames and the
    common columns. *)
Definition same_shape (t t' : DB_Table) : Prop :=
  columns (source_df t') = columns (source_df t) /\
  columns (snow_df t') = columns (snow_df t) /\
  common_columns t' = common_columns t.

Lemma same_shape_refl t : same_shape t t.
Proof. by repeat split. Qed.

Lemma same_shape_trans t1 t2 t3 :
  same_shape t1 t2 -> same_shape t2 t3 -> same_shape t1 t3.
Proof. intros (?&?&?) (?&?&?). repeat split; congruence. Qed.

Lemma apply_rule_shape t rule t' :
  apply_rule finite_repr str_upper t rule = Ok t' -> same_shape t t'.
Proof.
  unfold apply_rule.
  destruct (String.eqb (r_target rule) "source") eqn:Hs; simpl.
  - destruct (negb _); [intros [= <-]; apply same_shape_refl|].
    destruct (rule_function _ _ _) as [[f|]|]; simpl; try done.
    + destruct (apply_column _ _ _) as [df'|] eqn:Hdf; simpl; [|done].
      intros [= <-]. apply apply_column_columns in Hdf. by repeat split.
    + intros [= <-]; apply same_shape_refl.
  - destruct (String.eqb (r_target rule) "snow"); simpl; [|done].
    destruct (negb _); [intros [= <-]; apply same_shape_refl|].
    destruct (rule_function _ _ _) as [[f|]|]; simpl; try done.
    + destruct (apply_column _ _ _) as [df'|] eqn:Hdf; simpl; [|done].
      intros [= <-]. apply apply_column_columns in Hdf. by repeat split.
    + intros [= <-]; apply same_shape_refl.
Qed.

Lemma apply_rules_shape rules : forall t t',
  apply_rules finite_repr str_upper t rules = Ok t' -> same_shape t t'.
Proof.
  induction rules as [|rule rest IH]; simpl; intros t t'.
  - intros [= <-]. apply same_shape_refl.
  - destruct (apply_rule _ _ t rule) as [t1|] eqn:H1; simpl; [|done].
    intros H2. eapply same_shape_trans; [by eapply apply_rule_shape | by apply IH].
Qed.

Lemma none_columns_columns cols : forall df df',
  none_columns finite_repr cols df = Ok df' -> columns df' = columns df.
Proof.
  induction cols as [|c rest IH]; simpl; intros df df'.
  - by intros [= <-].
  - destruct (apply_column _ c df) as [d|] eqn:Hd; simpl; [|done].
    intros H. rewrite (IH _ _ H). by eapply apply_column_columns.
Qed.

Lemma dv_none_rule_shape t t' :
  dv_none_rule finite_repr t = Ok t' -> same_shape t t'.
Proof.
  unfold dv_none_rule.
  destruct (none_columns _ _ (source_df t)) as [s|] eqn:Hs; simpl; [|done].
  destruct (none_columns _ _ (snow_df t)) as [w|] eqn:Hw; simpl; [|done].
  intros [= <-]. apply none_columns_columns in Hs, Hw. by repeat split.
Qed.

End TableFacts.

(** C8. A table that [DB_Table.__init__] built has its common columns
    among the labels of both of its frames, and [TSTAMP] is not one of
    them, whatever the mapping file says. *)
Theorem common_columns_invariant
  (finite_repr : bool -> positive -> Z -> string) (str_upper : string -> string)
  (source name : string) (source_csv snow_csv : DataFrame)
  (json_dict : list (string * Config)) (t : DB_Table) :
  DB_Table_init finite_repr str_upper source name source_csv snow_csv json_dict = Ok t ->
  (forall c, c ∈ common_columns t ->
     c ∈ columns (source_df t) /\ c ∈ columns (snow_df t)) /\
  "TSTAMP" ∉ common_columns t.
Proof.
  unfold DB_Table_init.
  set (cfg := read_mapping_file name json_dict _).
  set (common := set_intersection _ _).
  set (t0 := Build_DB_Table _ _ _ _ _ _ _ _).
  intros Hinit.
  assert (Hshape : same_shape t0 t).
  { destruct (apply_rules _ _ t0 (Rules cfg)) as [t1|] eqn:H1; simpl in Hinit; [|done].
    apply apply_rules_shape in H1.
    destruct (String.eqb source "DATAVISION").
    - eapply same_shape_trans; [exact H1 | by eapply dv_none_rule_shape].
    - by injection Hinit as <-. }
  destruct Hshape as (Hs & Hw & Hc). rewrite Hs, Hw, Hc. simpl.
  assert (Hin : forall c, c ∈ common ->
            c ∈ columns (rename (Columns cfg) source_csv) /\ c ∈ columns snow_csv).
  { intros c. unfold common, set_intersection.
    rewrite elem_of_elements, elem_of_intersection, !elem_of_list_to_set. done. }
  assert (Hnd : NoDup common) by apply NoDup_elements.
  split.
  - intros c Hcin. apply Hin. unfold has_column in Hcin.
    case_bool_decide; [|done]. by apply (list_remove_subseteq "TSTAMP").
  - unfold has_column. case_bool_decide; [by apply list_remove_NoDup | done].
Qed.

(** The invariant at work on a table with a [TSTAMP] column on both
    sides and a rule. *)
Lemma common_columns_invariant_witness :
  let source_csv := {| columns := ["ID"; "tstamp"; "NAME"];
                       rows := [[VStr "1"; VStr "t"; VStr "a"]] |} in
  let snow_csv := {| columns := ["ID"; "TSTAMP"; "VAL"];
                     rows := [[VStr "1"; VStr "u"; VStr "b"]] |} in
  let cfg := {| Columns := {["tstamp" := "TSTAMP"]};
                Rules := [ {| r_target := "source"; r_column := "ID";
                              r_operation := "cast_int"; r_value := None |} ];
                PK := ["ID"] |} in
  exists t,
    DB_Table_init Fixture.no_repr Fixture.ascii_upper "SAP" "ORDERS" source_csv snow_csv
      [("ORDER", cfg)] = Ok t /\
    (forall c, c ∈ common_columns t ->
       c ∈ columns (source_df t) /\ c ∈ columns (snow_df t)) /\
    "TSTAMP" ∉ common_columns t.
Proof.
  intros source_csv snow_csv cfg.
  destruct (DB_Table_init Fixture.no_repr Fixture.ascii_upper "SAP" "ORDERS"
              source_csv snow_csv [("ORDER", cfg)]) as [t|e] eqn:H.
  - exists t. split; [reflexivity|].
    exact (common_columns_invariant _ _ _ _ _ _ _ t H).
  - exfalso. vm_compute in H. discriminate H.
Defined.

(** ** Duplicate detection *)

Lemma dup_mask_length seen ks : length (dup_mask seen ks) = length ks.
Proof. revert seen. induction ks as [|k ks IH]; intros seen; simpl; [done|]. by rewrite IH. Qed.

(** A row is flagged when its key is among those seen before the
    frame, or stands in an earlier row. *)
Lemma dup_mask_lookup ks : forall seen i,
  dup_mask seen ks !! i = Some true <->
  exists k, ks !! i = Some k /\ (k ∈ seen \/ exists j, (j < i)%nat /\ ks !! j = Some k).
Proof.
  induction ks as [|k0 ks IH]; intros seen i; simpl.
  - split; [done | by intros (k & ? & _)].
  - destruct i as [|i]; simpl.
    + split.
      * intros [= H]. apply bool_decide_eq_true in H. exists k0. split; [done | by left].
      * intros (k & [= <-] & [H | (j & Hj & _)]); [|lia].
        f_equal. by apply bool_decide_eq_true.
    + rewrite IH. split.
      * intros (k & Hk & [Hin | (j & Hj & Hjk)]); exists k; (split; [done|]).
        -- apply elem_of_cons in Hin as [-> | Hin]; [|by left].
           right. exists O. split; [lia | done].
        -- right. exists (S j). split; [lia | done].
      * intros (k & Hk & [Hin | (j & Hj & Hjk)]); exists k; (split; [done|]).
        -- left. by right.
        -- destruct j as [|j]; simpl in Hjk.
           ++ injection Hjk as ->. left. by left.
           ++ right. exists j. split; [lia | done].
Qed.

(** C2, as the code has it.  [duplicated] looks at one frame only and,
    keeping the first occurrence of every key, flags the rows whose key
    already stands in an earlier row of that frame: a key that occurs
    twice contributes one flagged row, the second. *)
Theorem duplicated_flags_later_occurrences
  (df : DataFrame) (subset : list string) (mask : list bool) :
  rows df <> [] -> columns df <> [] ->
  duplicated df subset = Ok mask ->
  length mask = length (rows df) /\
  forall i, mask !! i = Some true <->
    exists k j, (j < i)%nat /\
      frame_keys df subset !! i = Some k /\ frame_keys df subset !! j = Some k.
Proof.
  intros Hr Hc. unfold duplicated.
  destruct (rows df) as [|r rs] eqn:Er; [done|].
  destruct (columns df) as [|c cs] eqn:Ec; [done|]. simpl.
  destruct (negb _); [done|]. destruct (is_nil subset); [done|].
  intros [= <-]. split.
  - rewrite dup_mask_length. unfold frame_keys. rewrite Er. by rewrite length_fmap.
  - intros i. rewrite dup_mask_lookup. split.
    + intros (k & Hk & [Hin | (j & Hj & Hjk)]); [by apply elem_of_nil in Hin|].
      by exists k, j.
    + intros (k & j & Hj & Hk & Hjk). exists k. split; [done|]. right. by exists j.
Qed.

(** The frame of the claim: of the two rows with [id] 2 only the second
    is flagged. *)
Lemma duplicated_flags_later_occurrences_witness :
  length [false; false; true] = length (rows (Fixture.ids ["1"; "2"; "2"])) /\
  forall i, [false; false; true] !! i = Some true <->
    exists k j, (j < i)%nat /\
      frame_keys (Fixture.ids ["1"; "2"; "2"]) ["id"] !! i = Some k /\
      frame_keys (Fixture.ids ["1"; "2"; "2"]) ["id"] !! j = Some k.
Proof.
  apply (duplicated_flags_later_occurrences (Fixture.ids ["1"; "2"; "2"]) ["id"]).
  - discriminate.
  - discriminate.
  - reflexivity.
Defined.

(** C2, as stated, fails: for the source frame with ids 1, 2, 2 the
    duplicates handed on hold one row with [id] 2, not both. *)
Lemma duplicates_miss_first_occurrence :
  length (filter (fun r => r = [VStr "2"]) (rows (Fixture.ids ["1"; "2"; "2"]))) = 2%nat /\
  duplicated (Fixture.ids ["1"; "2"; "2"]) ["id"] = Ok [false; false; true] /\
  duplicate_rows (Fixture.ids ["1"; "2"; "2"]) ["id"]
    = Ok {| columns := ["id"]; rows := [[VStr "2"]] |}.
Proof. repeat split; reflexivity. Qed.

(** ** The outer join *)

Fixpoint sum_nat (l : list nat) : nat :=
  match l with
  | [] => O
  | n :: l' => (n + sum_nat l')%nat
  end.

Definition count_tag (tag : indicator) (l : list merged_row) : nat :=
  length (filter (fun r => mr_merge r = tag) l).

Lemma count_tag_app tag l1 l2 :
  count_tag tag (l1 ++ l2) = (count_tag tag l1 + count_tag tag l2)%nat.
Proof. unfold count_tag. by rewrite filter_app, length_app. Qed.

Lemma count_tag_fmap_same {A} tag (f : A -> merged_row) (l : list A) :
  (forall a, mr_merge (f a) = tag) -> count_tag tag (f <$> l) = length l.
Proof.
  intros H. unfold count_tag. induction l as [|a l IH]; [done|].
  rewrite fmap_cons, filter_cons_True by apply H. cbn [length]. by rewrite IH.
Qed.

Lemma count_tag_fmap_other {A} tag (f : A -> merged_row) (l : list A) :
  (forall a, mr_merge (f a) <> tag) -> count_tag tag (f <$> l) = O.
Proof.
  intros H. unfold count_tag. induction l as [|a l IH]; [done|].
  by rewrite fmap_cons, filter_cons_False by apply H.
Qed.

Lemma filter_none {A} (P : A -> Prop) `{!forall a, Decision (P a)} (l : list A) :
  (forall a, a ∈ l -> ~ P a) -> filter P l = [].
Proof.
  induction l as [|a l IH]; intros Hall; [done|].
  rewrite filter_cons_False by (apply Hall; by left).
  apply IH. intros b Hb. apply Hall. by right.
Qed.

Section JoinCounts.

Variables (left right : DataFrame) (on : list string).

Local Abbreviation key_l := (row_key (columns left) on).
Local Abbreviation key_r := (row_key (columns right) on).

Lemma join_left_both l :
  count_tag both (join_left left right on l) = length (matches right on (key_l l)).
Proof.
  unfold join_left.
  destruct (matches right on (key_l l)) as [|r ms] eqn:E; [done|].
  by apply count_tag_fmap_same.
Qed.

Lemma join_left_left_only l :
  count_tag left_only (join_left left right on l)
  = if is_nil (matches right on (key_l l)) then 1%nat else O.
Proof.
  unfold join_left.
  destruct (matches right on (key_l l)) as [|r ms] eqn:E; [done|].
  by apply count_tag_fmap_other.
Qed.

Lemma join_left_right_only l :
  count_tag right_only (join_left left right on l) = O.
Proof.
  unfold join_left.
  destruct (matches right on _) as [|r ms] eqn:E; [done|].
  by apply count_tag_fmap_other.
Qed.

Lemma bind_count tag (ls : list (list scalar)) :
  count_tag tag (ls ≫= join_left left right on)
  = sum_nat ((fun l => count_tag tag (join_left left right on l)) <$> ls).
Proof.
  induction ls as [|l ls IH]; [done|].
  rewrite bind_cons, fmap_cons, count_tag_app, IH. done.
Qed.

(** With distinct keys on the right, a left row has one partner at most. *)
Lemma matches_unique k :
  NoDup (frame_keys right on) -> (length (matches right on k) <= 1)%nat.
Proof.
  unfold frame_keys, matches.
  induction (rows right) as [|r rs IH]; simpl; [lia|].
  intros Hnd. apply NoDup_cons in Hnd as [Hr Hnd].
  destruct (decide (key_r r = k)) as [Heq|Hne].
  - rewrite filter_cons_True by done. simpl.
    assert (filter (fun r0 => key_r r0 = k) rs = []) as ->; [|simpl; lia].
    apply filter_none. intros r' Hin Hk.
    apply Hr. rewrite Heq, <- Hk. by apply list_elem_of_fmap_2.
  - rewrite filter_cons_False by done. by apply IH.
Qed.

Lemma left_part_source ls :
  NoDup (frame_keys right on) ->
  (count_tag both (ls ≫= join_left left right on)
   + count_tag left_only (ls ≫= join_left left right on) = length ls)%nat.
Proof.
  intros Hnd. rewrite !bind_count.
  induction ls as [|l ls IH]; simpl; [done|].
  rewrite join_left_both, join_left_left_only.
  pose proof (matches_unique (key_l l) Hnd) as Hle.
  unfold fmap in IH |- *.
  destruct (matches right on (key_l l)) as [|r [|r' ms]]; simpl in Hle |- *; lia.
Qed.

(** With distinct keys on the left, the matched pairs are as many as
    the right rows whose key stands on the left. *)
Lemma matched_pairs_right (ls : list (list scalar)) :
  NoDup (key_l <$> ls) ->
  sum_nat ((fun l => length (matches right on (key_l l))) <$> ls)
  = length (filter (fun r => key_r r ∈ key_l <$> ls) (rows right)).
Proof.
  unfold matches.
  induction ls as [|l ls IH]; intros Hnd.
  - rewrite filter_none; [done|]. intros r _ Hin. by apply elem_of_nil in Hin.
  - rewrite fmap_cons in Hnd. rewrite fmap_cons. apply NoDup_cons in Hnd as [Hl Hnd].
    cbn [sum_nat]. rewrite (IH Hnd). clear IH.
    induction (rows right) as [|r rs IHr]; [done|].
    destruct (decide (key_r r = key_l l)) as [Heq|Hne].
    + rewrite (filter_cons_True (fun r0 => key_r r0 = key_l l)) by done.
      rewrite (filter_cons_False (fun r0 => key_r r0 ∈ key_l <$> ls)) by (by rewrite Heq).
      rewrite (filter_cons_True (fun r0 => key_r r0 ∈ key_l <$> l :: ls))
        by (rewrite fmap_cons, Heq; by left).
      cbn [length]. lia.
    + rewrite (filter_cons_False (fun r0 => key_r r0 = key_l l)) by done.
      destruct (decide (key_r r ∈ key_l <$> ls)) as [Hin|Hnin].
      * rewrite (filter_cons_True (fun r0 => key_r r0 ∈ key_l <$> ls)) by done.
        rewrite (filter_cons_True (fun r0 => key_r r0 ∈ key_l <$> l :: ls))
          by (rewrite fmap_cons; by right).
        cbn [length]. lia.
      * rewrite (filter_cons_False (fun r0 => key_r r0 ∈ key_l <$> ls)) by done.
        rewrite (filter_cons_False (fun r0 => key_r r0 ∈ key_l <$> l :: ls))
          by (rewrite fmap_cons, not_elem_of_cons; by split).
        lia.
Qed.

Lemma filter_split {A} (P : A -> Prop) `{!forall a, Decision (P a)} (l : list A) :
  (length (filter P l) + length (filter (fun a => ~ P a) l) = length l)%nat.
Proof.
  induction l as [|a l IH]; simpl; [done|].
  destruct (decide (P a)).
  - rewrite filter_cons_True, (filter_cons_False (fun a => ~ P a)) by tauto. simpl. lia.
  - rewrite filter_cons_False, (filter_cons_True (fun a => ~ P a)) by tauto. simpl. lia.
Qed.

Lemma merge_rows_source :
  NoDup (frame_keys right on) ->
  (count_tag both (merge_rows left right on)
   + count_tag left_only (merge_rows left right on) = length (rows left))%nat.
Proof.
  intros Hnd. unfold merge_rows. rewrite !count_tag_app.
  rewrite !(count_tag_fmap_other _ _ (unmatched_right left right on)) by done.
  pose proof (left_part_source (rows left) Hnd). lia.
Qed.

Lemma merge_rows_reference :
  NoDup (frame_keys left on) ->
  (count_tag both (merge_rows left right on)
   + count_tag right_only (merge_rows left right on) = length (rows right))%nat.
Proof.
  intros Hnd. unfold merge_rows. rewrite !count_tag_app.
  rewrite (count_tag_fmap_other both _ (unmatched_right left right on)) by done.
  rewrite (count_tag_fmap_same right_only _ (unmatched_right left right on)) by done.
  rewrite !bind_count.
  rewrite (list_fmap_ext _ (fun l => length (matches right on (key_l l))) (rows left))
    by (intros; apply join_left_both).
  rewrite (list_fmap_ext (fun l => count_tag right_only (join_left left right on l))
             (fun _ => O) (rows left)) by (intros; apply join_left_right_only).
  rewrite (matched_pairs_right (rows left) Hnd).
  assert (sum_nat ((fun _ : list scalar => O) <$> rows left) = O) as ->.
  { induction (rows left) as [|x xs IHx]; [done | by rewrite fmap_cons]. }
  unfold unmatched_right, frame_keys.
  pose proof (filter_split (fun r => key_r r ∈ key_l <$> rows left) (rows right)). lia.
Qed.

End JoinCounts.

Lemma with_indicator_length tag m :
  length (m_rows (with_indicator tag m)) = count_tag tag (m_rows m).
Proof. reflexivity. Qed.

(** The join goes through when the key is not empty, names columns of
    both frames and has the same kind of cells on both sides. *)
Lemma merge_total left right on :
  on <> [] -> all_columns on (columns left) = true -> all_columns on (columns right) = true ->
  incompatible_keys left right on = false ->
  merge left right on
  = Ok {| m_xcols := columns left; m_ycols := columns right; m_on := on;
          m_rows := merge_rows left right on |}.
Proof.
  intros Hon Hl Hr Hk. unfold merge. rewrite Hl, Hr, Hk. simpl.
  by destruct on.
Qed.

Lemma merge_Ok left right on m :
  merge left right on = Ok m ->
  m = {| m_xcols := columns left; m_ycols := columns right; m_on := on;
         m_rows := merge_rows left right on |}.
Proof.
  unfold merge. destruct (negb _); [done|]. destruct (is_nil on); [done|].
  destruct (incompatible_keys _ _ _); [done|]. by intros [= <-].
Qed.

(** The number of rows of a frame that carry a given key. *)
Definition partners (df : DataFrame) (on : list string) (k : list atom) : nat :=
  length (filter (fun r => row_key (columns df) on r = k) (rows df)).

(** For a count [p] on the elements of a list: the counts and the
    number of elements that count 0 add up to the length at least, and
    to the length exactly when no element counts more than 1. *)
Lemma sum_and_zeros {A} (p : A -> nat) (l : list A) :
  (length l <= sum_nat (p <$> l) + length (filter (fun a => p a = O) l))%nat /\
  ((sum_nat (p <$> l) + length (filter (fun a => p a = O) l) = length l)%nat
   <-> Forall (fun a => (p a <= 1)%nat) l).
Proof.
  induction l as [|a l [IH1 IH2]]; [by split|].
  rewrite fmap_cons. cbn [sum_nat length]. rewrite Forall_cons.
  destruct (decide (p a = O)) as [H0|H0].
  - rewrite filter_cons_True by done. cbn [length]. split; [lia|].
    rewrite <- IH2. lia.
  - rewrite filter_cons_False by done. split; [lia|].
    rewrite <- IH2. lia.
Qed.

(** Counting the pairs of equal key row by row of either list. *)
Lemma count_pairs {A B K} `{EqDecision K} (f : A -> K) (g : B -> K) (L : list A) (R : list B) :
  sum_nat ((fun a => length (filter (fun b => g b = f a) R)) <$> L)
  = sum_nat ((fun b => length (filter (fun a => f a = g b) L)) <$> R).
Proof.
  induction L as [|a L IH].
  - induction R as [|b R IHR]; [done|]. rewrite fmap_cons. cbn [sum_nat]. by rewrite <- IHR.
  - rewrite fmap_cons. cbn [sum_nat]. rewrite IH. clear IH.
    induction R as [|b R IHR]; [done|].
    rewrite !fmap_cons. cbn [sum_nat]. rewrite <- IHR. clear IHR.
    destruct (decide (g b = f a)) as [H|H].
    + rewrite (filter_cons_True (fun b0 => g b0 = f a)) by done.
      rewrite (filter_cons_True (fun a0 => f a0 = g b)) by done. cbn [length]. lia.
    + rewrite (filter_cons_False (fun b0 => g b0 = f a)) by done.
      rewrite (filter_cons_False (fun a0 => f a0 = g b)) by (intros H'; by apply H).
      lia.
Qed.

Lemma filter_length_iff {A} (P Q : A -> Prop) `{!forall a, Decision (P a)}
  `{!forall a, Decision (Q a)} (l : list A) :
  (forall a, P a <-> Q a) -> length (filter P l) = length (filter Q l).
Proof.
  intros Hiff. induction l as [|a l IH]; [done|].
  destruct (decide (P a)) as [Hp|Hp].
  - rewrite (filter_cons_True P), (filter_cons_True Q) by (done || by apply Hiff).
    cbn [length]. by rewrite IH.
  - rewrite (filter_cons_False P), (filter_cons_False Q) by (done || by rewrite <- Hiff).
    done.
Qed.

Lemma partners_zero df on k : partners df on k = O <-> k ∉ frame_keys df on.
Proof.
  unfold partners, frame_keys. induction (rows df) as [|r rs IH]; [split; [intros _; apply not_elem_of_nil | done]|].
  rewrite fmap_cons, not_elem_of_cons.
  destruct (decide (row_key (columns df) on r = k)) as [H|H].
  - rewrite filter_cons_True by done. cbn [length]. split; [lia | intros [Hne _]; by destruct Hne].
  - rewrite filter_cons_False by done. rewrite IH. split; [by intros ? | by intros [_ ?]].
Qed.

Section PartitionCounts.

Variables (left right : DataFrame) (on : list string).

Local Abbreviation key_l := (row_key (columns left) on).
Local Abbreviation key_r := (row_key (columns right) on).

Lemma matched_by_source :
  count_tag both (merge_rows left right on)
  = sum_nat ((fun l => partners right on (key_l l)) <$> rows left).
Proof.
  unfold merge_rows. rewrite count_tag_app.
  rewrite (count_tag_fmap_other both _ (unmatched_right left right on)) by done.
  rewrite bind_count, Nat.add_0_r.
  apply (f_equal sum_nat), list_fmap_ext. intros i l _. apply join_left_both.
Qed.

Lemma matched_by_reference :
  count_tag both (merge_rows left right on)
  = sum_nat ((fun r => partners left on (key_r r)) <$> rows right).
Proof.
  rewrite matched_by_source. unfold partners.
  apply (count_pairs key_l key_r (rows left) (rows right)).
Qed.

Lemma source_only_count :
  count_tag left_only (merge_rows left right on)
  = length (filter (fun l => partners right on (key_l l) = O) (rows left)).
Proof.
  unfold merge_rows. rewrite count_tag_app.
  rewrite (count_tag_fmap_other left_only _ (unmatched_right left right on)) by done.
  rewrite bind_count, Nat.add_0_r.
  induction (rows left) as [|l ls IH]; [done|].
  rewrite fmap_cons. cbn [sum_nat]. rewrite IH, join_left_left_only.
  unfold partners at 2. fold (matches right on (key_l l)).
  destruct (matches right on (key_l l)) as [|r ms] eqn:E.
  - rewrite filter_cons_True; [done|]. unfold partners. fold (matches right on (key_l l)).
    by rewrite E.
  - rewrite filter_cons_False; [done|]. unfold partners. fold (matches right on (key_l l)).
    by rewrite E.
Qed.

Lemma reference_only_count :
  count_tag right_only (merge_rows left right on)
  = length (filter (fun r => partners left on (key_r r) = O) (rows right)).
Proof.
  unfold merge_rows. rewrite count_tag_app.
  rewrite (count_tag_fmap_same right_only _ (unmatched_right left right on)) by done.
  rewrite bind_count.
  rewrite (list_fmap_ext (fun l => count_tag right_only (join_left left right on l))
             (fun _ => O) (rows left)) by (intros; apply join_left_right_only).
  assert (sum_nat ((fun _ : list scalar => O) <$> rows left) = O) as ->.
  { induction (rows left) as [|x xs IHx]; [done | by rewrite fmap_cons]. }
  unfold unmatched_right. cbn [Nat.add].
  apply filter_length_iff. intros r. by rewrite partners_zero.
Qed.

End PartitionCounts.

(** C1, as the code has it.  The matched rows are the pairs of a
    source row and a reference row with the same key.  Matched and
    source-only rows add up to the source frame at least, and exactly
    when no source row has its key in more than one reference row;
    matched and reference-only rows add up to the reference frame at
    least, and exactly when no reference row has its key in more than
    one source row.  Both sums are exact when the keys of the other
    frame are distinct. *)
Theorem merge_partition_counts (left right : DataFrame) (on : list string) (m : Merged) :
  merge left right on = Ok m ->
  let matched := length (m_rows (with_indicator both m)) in
  let source_only := length (m_rows (with_indicator left_only m)) in
  let reference_only := length (m_rows (with_indicator right_only m)) in
  matched = sum_nat ((fun l => partners right on (row_key (columns left) on l)) <$> rows left) /\
  matched = sum_nat ((fun r => partners left on (row_key (columns right) on r)) <$> rows right) /\
  source_only
  = length (filter (fun l => partners right on (row_key (columns left) on l) = O) (rows left)) /\
  reference_only
  = length (filter (fun r => partners left on (row_key (columns right) on r) = O) (rows right)) /\
  (length (rows left) <= matched + source_only)%nat /\
  (length (rows right) <= matched + reference_only)%nat /\
  ((matched + source_only = length (rows left))%nat <->
   Forall (fun l => (partners right on (row_key (columns left) on l) <= 1)%nat) (rows left)) /\
  ((matched + reference_only = length (rows right))%nat <->
   Forall (fun r => (partners left on (row_key (columns right) on r) <= 1)%nat) (rows right)) /\
  (NoDup (frame_keys right on) -> (matched + source_only = length (rows left))%nat) /\
  (NoDup (frame_keys left on) -> (matched + reference_only = length (rows right))%nat).
Proof.
  intros ->%merge_Ok. cbv zeta. rewrite !with_indicator_length. cbn [m_rows].
  pose proof (matched_by_source left right on) as Hs.
  pose proof (matched_by_reference left right on) as Hr.
  pose proof (source_only_count left right on) as Hso.
  pose proof (reference_only_count left right on) as Hro.
  pose proof (sum_and_zeros (fun l => partners right on (row_key (columns left) on l))
                (rows left)) as [Hl1 Hl2].
  pose proof (sum_and_zeros (fun r => partners left on (row_key (columns right) on r))
                (rows right)) as [Hr1 Hr2].
  rewrite <- Hs, <- Hso in Hl1, Hl2. rewrite <- Hr, <- Hro in Hr1, Hr2.
  repeat (split; [done|]). split.
  - intros Hnd. apply Hl2, Forall_forall. intros l _. apply (matches_unique right on _ Hnd).
  - intros Hnd. apply Hr2, Forall_forall. intros r _. apply (matches_unique left on _ Hnd).
Qed.

(** Two frames with distinct keys each: one matched pair, one row on
    either side alone. *)
Lemma merge_partition_counts_witness :
  let left := Fixture.id_val [("1", "A"); ("2", "B")] in
  let right := Fixture.id_val [("1", "A"); ("3", "C")] in
  exists m, merge left right ["id"] = Ok m /\
    (length (m_rows (with_indicator both m)) + length (m_rows (with_indicator left_only m))
     = length (rows left))%nat /\
    (length (m_rows (with_indicator both m)) + length (m_rows (with_indicator right_only m))
     = length (rows right))%nat.
Proof.
  intros left right. eexists. split; [reflexivity|].
  destruct (merge_partition_counts left right ["id"] _ eq_refl)
    as (_ & _ & _ & _ & _ & _ & _ & _ & H1 & H2).
  split; [apply H1 | apply H2]; apply (bool_decide_unpack _); vm_compute; reflexivity.
Defined.

(** C1, as stated, fails when a key is duplicated: one source row that
    meets two reference rows with its key gives two matched rows, and
    matched plus source-only is 2 for a source frame of 1 row. *)
Lemma merge_partition_fails_on_duplicate_key :
  exists m, merge (Fixture.ids ["1"]) (Fixture.ids ["1"; "1"]) ["id"] = Ok m /\
    length (m_rows (with_indicator both m)) = 2%nat /\
    length (m_rows (with_indicator left_only m)) = O /\
    length (rows (Fixture.ids ["1"])) = 1%nat /\
    (length (m_rows (with_indicator both m)) + length (m_rows (with_indicator left_only m))
     <> length (rows (Fixture.ids ["1"])))%nat.
Proof. eexists. split; [reflexivity|]. vm_compute. repeat split; congruence. Qed.

(** ** binary64 rounding *)

Lemma Zdigits2_nonneg m : 0 <= Zdigits2 m.
Proof. destruct m; simpl; lia. Qed.

Lemma Zdigits2_log2 p : Zdigits2 (Z.pos p) = Z.log2 (Z.pos p) + 1.
Proof.
  assert (H : forall q, digits2_pos q = Pos.size q).
  { induction q; simpl; congruence. }
  destruct p; simpl; rewrite ?H; lia.
Qed.

(** A number below [2 ^ b] has [b] binary digits at most. *)
Lemma Zdigits2_le m b : 0 <= b -> 0 <= m < 2 ^ b -> Zdigits2 m <= b.
Proof.
  intros Hb [Hm Hlt]. destruct m as [|p|p]; [simpl; lia | | lia].
  rewrite Zdigits2_log2. apply Z.log2_lt_pow2 in Hlt; lia.
Qed.

Lemma Zdigits2_gt p : Z.pos p < 2 ^ Zdigits2 (Z.pos p).
Proof.
  rewrite Zdigits2_log2. apply Z.log2_spec. lia.
Qed.

Lemma Zdigits2_succ m : 0 <= m -> Zdigits2 (m + 1) <= Zdigits2 m + 1.
Proof.
  intros Hm. destruct m as [|p|p]; [simpl; lia | | lia].
  apply Zdigits2_le; [pose proof (Zdigits2_nonneg (Z.pos p)); lia|].
  pose proof (Zdigits2_gt p) as H. split; [lia|].
  rewrite Z.pow_add_r by (pose proof (Zdigits2_nonneg (Z.pos p)); lia). lia.
Qed.

Lemma shr_1_m s : 0 <= shr_m s ->
  0 <= shr_m (shr_1 s) /\ Zdigits2 (shr_m (shr_1 s)) = Z.max 0 (Zdigits2 (shr_m s) - 1).
Proof.
  destruct s as [m r t]. simpl. intros Hm.
  destruct m as [|p|p]; [simpl; lia | | lia].
  destruct p; simpl; lia.
Qed.

Lemma iter_shr_1_m p : forall s, 0 <= shr_m s ->
  0 <= shr_m (SpecFloat.iter_pos shr_1 p s) /\
  Zdigits2 (shr_m (SpecFloat.iter_pos shr_1 p s)) = Z.max 0 (Zdigits2 (shr_m s) - Z.pos p).
Proof.
  induction p as [p IH|p IH|]; intros s Hs; simpl.
  - destruct (shr_1_m s Hs) as [H1 D1].
    destruct (IH _ H1) as [H2 D2]. destruct (IH _ H2) as [H3 D3].
    split; [done|]. rewrite D3, D2, D1. lia.
  - destruct (IH _ Hs) as [H2 D2]. destruct (IH _ H2) as [H3 D3].
    split; [done|]. rewrite D3, D2. lia.
  - apply shr_1_m, Hs.
Qed.

Lemma shr_record_of_loc_m m l : shr_m (shr_record_of_loc m l) = m.
Proof. by destruct l as [|[]]. Qed.

(** One step of [shr_fexp]: the mantissa stays non-negative, the
    exponent can only grow, up to the one the format asks for, and the
    magnitude [digits + exponent] does not grow. *)
Lemma shr_fexp_spec m e l : 0 <= m ->
  let '(s, e') := shr_fexp prec emax m e l in
  0 <= shr_m s /\
  e' = Z.max e (fexp prec emax (Zdigits2 m + e)) /\
  (shr_m s = 0 \/ Zdigits2 (shr_m s) + e' = Zdigits2 m + e).
Proof.
  intros Hm. unfold shr_fexp, shr.
  destruct (fexp prec emax (Zdigits2 m + e) - e) as [|n|n] eqn:En.
  - rewrite shr_record_of_loc_m. repeat split; [done | lia | by right].
  - pose proof (iter_shr_1_m n (shr_record_of_loc m l)) as H.
    rewrite shr_record_of_loc_m in H. destruct (H Hm) as [H1 H2].
    repeat split; [done | lia |].
    destruct (shr_m (SpecFloat.iter_pos shr_1 n (shr_record_of_loc m l))) as [|q|q] eqn:Eq;
      [by left | right | lia].
    rewrite H2. assert (0 < Zdigits2 (Z.pos q)) by (simpl; lia). lia.
  - rewrite shr_record_of_loc_m. repeat split; [done | lia | by right].
Qed.

Lemma round_nearest_even_spec m l : 0 <= m ->
  m <= round_nearest_even m l <= m + 1.
Proof. intros Hm. unfold round_nearest_even. destruct l as [|[]]; try lia. destruct (Z.even m); lia. Qed.

Lemma Zdigits2_mono a b : 0 <= a <= b -> Zdigits2 a <= Zdigits2 b.
Proof.
  intros [Ha Hab]. destruct b as [|q|q]; [replace a with 0 by lia; simpl; lia | | lia].
  apply Zdigits2_le; [apply Zdigits2_nonneg|]. pose proof (Zdigits2_gt q). lia.
Qed.

(** Rounding a non-negative mantissa whose magnitude is at most [B]
    gives a zero or a finite float of the sign asked for, of magnitude
    [B + 1] at most ([B] within the exponent range): neither [nan] nor an infinity. *)
Lemma binary_round_aux_bounded s m e l B :
  0 <= m -> Zdigits2 m + e <= B -> e <= B -> -1074 <= B <= 970 ->
  match binary_round_aux prec emax s m e l with
  | S754_zero s' => s' = s
  | S754_finite s' m' e' => s' = s /\ Zdigits2 (Z.pos m') + e' <= B + 1
  | _ => False
  end.
Proof.
  intros Hm HB He HB'. unfold binary_round_aux.
  pose proof (shr_fexp_spec m e l Hm) as H1.
  destruct (shr_fexp prec emax m e l) as [s1 e1]. destruct H1 as (Hs1 & He1 & Hd1).
  set (m2 := round_nearest_even (shr_m s1) (loc_of_shr_record s1)).
  pose proof (round_nearest_even_spec (shr_m s1) (loc_of_shr_record s1) Hs1) as Hm2.
  fold m2 in Hm2.
  assert (Hm2' : 0 <= m2) by lia.
  pose proof (shr_fexp_spec m2 e1 loc_Exact Hm2') as H2.
  destruct (shr_fexp prec emax m2 e1 loc_Exact) as [s2 e2]. destruct H2 as (Hs2 & He2 & Hd2).
  assert (Hf : forall x, fexp prec emax x = Z.max (x - 53) (-1074)) by (intros; reflexivity).
  rewrite Hf in He1, He2.
  assert (Hdm2 : Zdigits2 m2 <= Zdigits2 (shr_m s1) + 1).
  { etransitivity; [apply (Zdigits2_mono m2 (shr_m s1 + 1)); lia | by apply Zdigits2_succ]. }
  assert (Hmag1 : Zdigits2 (shr_m s1) + e1 <= B).
  { destruct Hd1 as [-> | ->]; [simpl; lia | lia]. }
  destruct (shr_m s2) as [|q|q] eqn:Eq; [done | | lia].
  assert (He2' : e2 <= 971) by lia.
  destruct (Z.leb_spec e2 (emax - prec)) as [_|Hgt]; [|unfold emax, prec in Hgt; lia].
  split; [done|]. destruct Hd2 as [Hd2 | Hd2]; [done|]. lia.
Qed.











(** ** The order of floats *)










(** ** The sort *)







(** ** Text *)

Lemma str_append_assoc (a b c : string) : (a +:+ b) +:+ c = a +:+ (b +:+ c).
Proof.
  induction a as [|x a IH]; [done|].
  change (String x ((a +:+ b) +:+ c) = String x (a +:+ (b +:+ c))). by f_equal.
Qed.

Lemma str_append_nil_r (s : string) : s +:+ "" = s.
Proof.
  induction s as [|c s IH]; [done|].
  change (String c (s +:+ "") = String c s). by rewrite IH.
Qed.

(** The text of a run of lines. *)
Definition join_lines (lines : list string) : string := foldr String.append "" lines.

(** ** The column-overlap analyser *)


(** The matched rows on which a column agrees, counted on the rows
    themselves: those whose source value equals the reference value. *)
Definition agreeing_rows (df : Merged) (c : string) : Z :=
  Z.of_nat (length (filter
    (fun r => py_eq (cell (m_xcols df) (mr_x r) c) (cell (m_ycols df) (mr_y r) c) = true)
    (m_rows df))).



Lemma count_true_fmap {A} (f : A -> bool) (l : list A) :
  count_true (f <$> l) = Z.of_nat (length (filter (fun a => f a = true) l)).
Proof.
  unfold count_true. f_equal. induction l as [|a l IH]; [done|].
  rewrite fmap_cons. destruct (f a) eqn:E.
  - rewrite filter_cons_True by done. rewrite (filter_cons_True _ a) by done.
    cbn [length]. by rewrite IH.
  - rewrite filter_cons_False by done. rewrite (filter_cons_False _ a) by congruence. done.
Qed.

(** The rows the comparison of the two columns keeps are the agreeing
    rows. *)
Lemma overlap_mask_count df c mask :
  overlap_mask df c = Ok mask -> count_true mask = agreeing_rows df c.
Proof.
  unfold overlap_mask. destruct (_ && _); [|done]. intros [= <-].
  apply count_true_fmap.
Qed.


(** A column the analyser can compare: it is in both frames and not
    part of the join key. *)
Definition comparable (df : Merged) (c : string) : Prop :=
  c ∈ m_xcols df /\ c ∈ m_ycols df /\ c ∉ m_on df.

Lemma overlap_mask_comparable df c :
  comparable df c ->
  exists mask, overlap_mask df c = Ok mask /\ length mask = length (m_rows df).
Proof.
  intros (Hx & Hy & Hon). unfold overlap_mask, has_column.
  rewrite !bool_decide_eq_true_2 by done. rewrite bool_decide_eq_false_2 by done. simpl.
  eexists. split; [reflexivity|]. by rewrite length_fmap.
Qed.


Lemma dict_set_keys {V} k (v : V) d :
  (dict_set k v d).*1 = if bool_decide (k ∈@{list string} d.*1) then d.*1 else (d.*1 ++ [k])%list.
Proof.
  induction d as [|[k' v'] d IH]; [done|]. cbn [dict_set].
  destruct (String.eqb k k') eqn:E.
  - apply String.eqb_eq in E as ->. rewrite !fmap_cons. cbn [fst].
    rewrite bool_decide_eq_true_2 by left. done.
  - apply String.eqb_neq in E. rewrite !fmap_cons, IH. cbn [fst].
    destruct (decide (k ∈ (d.*1))) as [Hin|Hnin].
    + rewrite !bool_decide_eq_true_2; [done | by right | done].
    + rewrite !bool_decide_eq_false_2; [done | | done].
      rewrite not_elem_of_cons. done.
Qed.












(** ** The empty matched set *)

(** On an empty matched set the first column the loop does not skip
    divides by zero. *)
Lemma column_match_dict_empty df pk cols : forall d,
  m_rows df = [] ->
  (forall c, c ∈ cols -> c ∉ pk -> comparable df c) ->
  (exists c, c ∈ cols /\ c ∉ pk) ->
  column_match_dict df pk cols d = Err ZeroDivisionError.
Proof.
  induction cols as [|column rest IH]; intros d Hrows Hcols (c & Hc & Hpk); simpl.
  - by apply elem_of_nil in Hc.
  - unfold has_column. case_bool_decide as Hin.
    + apply IH; [done | intros c' Hc'; apply Hcols; by right |].
      exists c. split; [|done].
      apply elem_of_cons in Hc as [-> | Hc]; [done | done].
    + destruct (overlap_mask_comparable df column) as (mask & Hmask & Hlen).
      { apply Hcols; [by left | done]. }
      rewrite Hmask. simpl. unfold match_percent. rewrite Hrows. reflexivity.
Qed.

(** C4, as the code has it.  When no row is matched and there is a
    common column outside the primary key, [column_overlap] divides by
    zero and raises [ZeroDivisionError]: no "no data" value is
    reported. *)
Theorem column_overlap_empty_raises
  (finite_repr : bool -> positive -> Z -> string) (df : Merged) (table : DB_Table) :
  m_rows df = [] ->
  (forall c, c ∈ common_columns table -> c ∉ primary_key table -> comparable df c) ->
  (exists c, c ∈ common_columns table /\ c ∉ primary_key table) ->
  column_overlap finite_repr df table = Err ZeroDivisionError.
Proof.
  intros Hrows Hcols Hex. unfold column_overlap, column_overlap_items.
  by rewrite (column_match_dict_empty df _ _ [] Hrows Hcols Hex).
Qed.

(** Two frames that share no key: nothing is matched, and the column
    [val] makes the analyser raise. *)
Lemma column_overlap_empty_raises_witness :
  let df := {| m_xcols := ["id"; "val"]; m_ycols := ["id"; "val"]; m_on := ["id"];
               m_rows := [] |} in
  let table := {| name := "T"; source := "S"; column_mapping := ∅; column_rules := [];
                  primary_key := ["id"];
                  source_df := Fixture.id_val [("1", "A")];
                  snow_df := Fixture.id_val [("2", "B")];
                  common_columns := ["id"; "val"] |} in
  column_overlap Fixture.no_repr df table = Err ZeroDivisionError.
Proof.
  intros df table. apply column_overlap_empty_raises.
  - reflexivity.
  - intros c Hc Hpk. simpl in Hc, Hpk. unfold comparable. simpl.
    rewrite !elem_of_cons in Hc. rewrite not_elem_of_cons in Hpk.
    destruct Hc as [-> | [-> | Hc]]; [by destruct Hpk | | by apply elem_of_nil in Hc].
    repeat split; [by apply (bool_decide_unpack _).. | ].
    intros H. by apply (bool_decide_pack _) in H.
  - exists "val". simpl. split; [by apply (bool_decide_unpack _)|].
    intros H. by apply (bool_decide_pack _) in H.
Defined.

(** C4, as stated, fails: the source row and the reference row below
    have different keys, the matched set is empty, and the analyser
    raises instead of reporting a value for [val]. *)
Lemma empty_matched_set_divides_by_zero :
  exists m,
    merge (Fixture.id_val [("1", "A")]) (Fixture.id_val [("2", "B")]) ["id"] = Ok m /\
    m_rows (with_indicator both m) = [] /\
    column_overlap_items (with_indicator both m) ["id"] ["id"; "val"]
      = Err ZeroDivisionError.
Proof. eexists. split; [reflexivity|]. split; vm_compute; reflexivity. Qed.

(** ** Percent variance *)

Lemma Zdigits2_pos m : 0 < m -> 0 < Zdigits2 m.
Proof. destruct m; simpl; lia. Qed.

Lemma Zdigits2_zero m : 0 <= m -> Zdigits2 m = 0 -> m = 0.
Proof. destruct m; simpl; lia. Qed.

(** One step of [shr_fexp], digit by digit: the mantissa loses as many
    digits as the exponent gains. *)
Lemma shr_fexp_digits m e l : 0 <= m ->
  let n := Z.max 0 (fexp prec emax (Zdigits2 m + e) - e) in
  let '(s, e') := shr_fexp prec emax m e l in
  0 <= shr_m s /\ e' = e + n /\ Zdigits2 (shr_m s) = Z.max 0 (Zdigits2 m - n).
Proof.
  intros Hm n. unfold shr_fexp, shr. subst n.
  pose proof (Zdigits2_nonneg m) as Hd.
  destruct (fexp prec emax (Zdigits2 m + e) - e) as [|p|p] eqn:En.
  - rewrite shr_record_of_loc_m. split; [done | split; lia].
  - pose proof (iter_shr_1_m p (shr_record_of_loc m l)) as H.
    rewrite shr_record_of_loc_m in H. destruct (H Hm) as [H1 H2].
    split; [done | split; [lia | rewrite H2; lia]].
  - rewrite shr_record_of_loc_m. split; [done | split; lia].
Qed.

(** Rounding a positive mantissa above the underflow threshold does
    not give a zero. *)
Lemma binary_round_aux_nonzero s m e l :
  0 < m -> -1073 <= Zdigits2 m + e ->
  is_zero (binary_round_aux prec emax s m e l) = false.
Proof.
  intros Hm Hmag. unfold binary_round_aux.
  pose proof (shr_fexp_digits m e l ltac:(lia)) as H1. cbv zeta in H1.
  destruct (shr_fexp prec emax m e l) as [s1 e1]. destruct H1 as (Hs1 & He1 & Hd1).
  set (m2 := round_nearest_even (shr_m s1) (loc_of_shr_record s1)).
  pose proof (round_nearest_even_spec (shr_m s1) (loc_of_shr_record s1) Hs1) as Hm2.
  fold m2 in Hm2.
  pose proof (shr_fexp_digits m2 e1 loc_Exact ltac:(lia)) as H2. cbv zeta in H2.
  destruct (shr_fexp prec emax m2 e1 loc_Exact) as [s2 e2]. destruct H2 as (Hs2 & He2 & Hd2).
  assert (Hf : forall x, fexp prec emax x = Z.max (x - 53) (-1074)) by (intros; reflexivity).
  rewrite Hf in He1, Hd1, He2, Hd2.
  pose proof (Zdigits2_pos m Hm) as Hdm.
  assert (Hd1' : 1 <= Zdigits2 (shr_m s1)) by lia.
  assert (Hdm2 : Zdigits2 (shr_m s1) <= Zdigits2 m2 <= Zdigits2 (shr_m s1) + 1).
  { split; [apply Zdigits2_mono; lia|].
    etransitivity; [apply (Zdigits2_mono m2 (shr_m s1 + 1)); lia | by apply Zdigits2_succ]. }
  assert (Hd2' : 1 <= Zdigits2 (shr_m s2)) by lia.
  destruct (shr_m s2) as [|q|q]; [simpl in Hd2'; lia | | done].
  by destruct (_ <=? _).
Qed.

Lemma digits2_pos_iter m d :
  Z.pos (digits2_pos (Pos.iter xO m d)) = Z.pos (digits2_pos m) + Z.pos d.
Proof.
  induction d as [|d IH] using Pos.peano_ind.
  - simpl. lia.
  - rewrite Pos.iter_succ. simpl. lia.
Qed.

(** [float(z)] raises nothing on an [int] of moderate size. *)
Lemma float_of_int_total z :
  0 <= z < 2 ^ 900 -> exists f, float_of_int z = Ok f.
Proof.
  intros [Hz Hlt]. unfold float_of_int.
  destruct z as [|p|p]; [by eexists | | lia].
  assert (Hdp : Zdigits2 (Z.pos p) <= 900) by (apply Zdigits2_le; lia).
  cbn [binary_normalize]. unfold binary_round.
  assert (Hal : let '(mz, ez) := shl_align p 0 (fexp prec emax (Z.pos (digits2_pos p) + 0)) in
                Zdigits2 (Z.pos mz) + ez = Zdigits2 (Z.pos p) /\ ez <= 0).
  { unfold shl_align. destruct (_ - 0) as [|d|d] eqn:Ed; [simpl; lia | simpl; lia |].
    cbn [Zdigits2]. rewrite digits2_pos_iter.
    assert (Hf : forall x, fexp prec emax x = Z.max (x - 53) (-1074)) by (intros; reflexivity).
    rewrite Hf in Ed |- *. lia. }
  destruct (shl_align p 0 _) as [mz ez]. destruct Hal as [Hmag Hez].
  pose proof (binary_round_aux_bounded false (Z.pos mz) ez loc_Exact 900) as Hb.
  pose proof (Zdigits2_pos (Z.pos p) ltac:(lia)) as Hpos.
  destruct (binary_round_aux prec emax false (Z.pos mz) ez loc_Exact) eqn:E;
    try (by eexists); exfalso; apply Hb; lia.
Qed.

(** Half of a positive [int] of moderate size is a float that is not
    zero. *)
Lemma int_truediv_half n :
  0 < n < 2 ^ 900 -> exists f, int_truediv n 2 = Ok f /\ is_zero f = false.
Proof.
  intros [Hn Hlt]. unfold int_truediv. change (2 =? 0) with false. cbv iota.
  change (Z.sgn 2) with 1. change (Z.abs 2) with 2. rewrite Z.mul_1_r.
  unfold float_of_ratio. destruct n as [|p|p]; [lia | | lia].
  change (Z.abs (Z.pos p)) with (Z.pos p). change (Z.pos p <? 0) with false.
  unfold SFdiv_core_binary.
  set (e' := Z.min (fexp prec emax (Zdigits2 (Z.pos p) + 0 - (Zdigits2 2 + 0))) (0 - 0)).
  set (s := 0 - 0 - e').
  set (m' := match s with Z.pos _ => Z.shiftl (Z.pos p) s | 0 => Z.pos p | Z.neg _ => 0 end).
  assert (He' : e' <= 0) by (unfold e'; lia).
  assert (Hs : 0 <= s) by (unfold s; lia).
  assert (Hm' : m' = Z.pos p * 2 ^ s).
  { unfold m'. destruct s as [|q|q] eqn:Es; [simpl; lia | | lia].
    rewrite Z.shiftl_mul_pow2 by lia. done. }
  assert (Hdp : 0 < Zdigits2 (Z.pos p) <= 900).
  { split; [simpl; lia | apply Zdigits2_le; lia]. }
  pose proof (Zdigits2_gt p) as Hgt.
  assert (Hge : 2 ^ (Zdigits2 (Z.pos p) - 1) <= Z.pos p).
  { rewrite Zdigits2_log2. replace (Z.log2 (Z.pos p) + 1 - 1) with (Z.log2 (Z.pos p)) by lia.
    apply Z.log2_spec. lia. }
  pose proof (Z_div_mod m' 2 ltac:(lia)) as Hdiv.
  destruct (Z.div_eucl m' 2) as [q r]. destruct Hdiv as [Hq Hr].
  assert (Hpow : 0 < 2 ^ s) by (apply Z.pow_pos_nonneg; lia).
  set (d := Zdigits2 (Z.pos p)) in *.
  assert (Hup : m' < 2 ^ (d + s)) by (rewrite Z.pow_add_r by lia; nia).
  assert (Hlow : 2 ^ (d - 1 + s) <= m') by (rewrite Z.pow_add_r by lia; nia).
  assert (Hs54 : 54 <= d + s).
  { unfold s, e'. change (Zdigits2 2) with 2. fold d.
    assert (Hf : forall x, fexp prec emax x = Z.max (x - 53) (-1074)) by (intros; reflexivity).
    rewrite Hf. lia. }
  assert (Hq1 : q < 2 ^ (d + s - 1)).
  { replace (d + s) with (1 + (d + s - 1)) in Hup by lia.
    rewrite Z.pow_add_r in Hup by lia. change (2 ^ 1) with 2 in Hup. lia. }
  assert (Hq0 : 2 ^ (d + s - 2) <= q).
  { replace (d - 1 + s) with (1 + (d + s - 2)) in Hlow by lia.
    rewrite Z.pow_add_r in Hlow by lia. change (2 ^ 1) with 2 in Hlow. lia. }
  assert (Hqpos : 0 < q).
  { apply Z.lt_le_trans with (2 ^ (d + s - 2)); [apply Z.pow_pos_nonneg; lia | done]. }
  assert (Hdq : d + s - 1 <= Zdigits2 q <= d + s - 1).
  { split.
    - destruct q as [|q'|q']; [lia | | lia].
      rewrite Zdigits2_log2. apply Z.log2_le_pow2 in Hq0; lia.
    - apply Zdigits2_le; lia. }
  pose proof (binary_round_aux_bounded false q e' (new_location 2 r) 900) as Hb.
  pose proof (binary_round_aux_nonzero false q e' (new_location 2 r) Hqpos) as Hnz.
  destruct (binary_round_aux prec emax false q e' (new_location 2 r)) eqn:E; simpl.
  - exfalso. unfold s in *. simpl in Hnz. assert (true = false); [apply Hnz; lia | done].
  - exfalso. unfold s in *. apply Hb; lia.
  - exfalso. unfold s in *. apply Hb; lia.
  - eexists. done.
Qed.

(** C5, as the code has it.  For row counts of any realistic size the
    variance is [abs (source - reference)] divided by half the sum and
    multiplied by 100.0, and nothing guards the division: with both
    counts zero the divisor is 0.0 and [ZeroDivisionError] is raised. *)
Theorem percent_variance_unguarded (tot_source tot_snow : Z) :
  0 <= tot_source -> 0 <= tot_snow -> tot_source + tot_snow < 2 ^ 900 ->
  if tot_source + tot_snow =? 0
  then percent_variance tot_source tot_snow = Err ZeroDivisionError
  else exists half diff,
    int_truediv (tot_source + tot_snow) 2 = Ok half /\
    float_of_int (Z.abs (tot_source - tot_snow)) = Ok diff /\
    percent_variance tot_source tot_snow
    = Ok (float_mul (SFdiv prec emax diff half) float_100).
Proof.
  intros Hs Hr Hlt. destruct (Z.eqb_spec (tot_source + tot_snow) 0) as [H0|Hne].
  - assert (tot_source = 0) as -> by lia. assert (tot_snow = 0) as -> by lia.
    reflexivity.
  - destruct (int_truediv_half (tot_source + tot_snow)) as (half & Hhalf & Hnz); [lia|].
    destruct (float_of_int_total (Z.abs (tot_source - tot_snow))) as (diff & Hdiff); [lia|].
    exists half, diff. split; [done|]. split; [done|].
    unfold percent_variance. rewrite Hhalf. simpl. rewrite Hdiff. simpl.
    unfold float_truediv. rewrite Hnz. reflexivity.
Qed.

(** Three source rows against two reference rows: 1 / 2.5 * 100. *)
Lemma percent_variance_unguarded_witness :
  exists half diff,
    int_truediv (3 + 2) 2 = Ok half /\
    float_of_int (Z.abs (3 - 2)) = Ok diff /\
    percent_variance 3 2 = Ok (float_mul (SFdiv prec emax diff half) float_100).
Proof.
  apply (percent_variance_unguarded 3 2); [lia | lia | reflexivity].
Defined.

(** C5, as stated, fails: with no row on either side the variance is
    not replaced by a sentinel, the division raises, and so does the
    text of the report. *)
Lemma zero_counts_divide_by_zero :
  percent_variance 0 0 = Err ZeroDivisionError /\
  report_text Fixture.no_repr (fun _ => "[]") (fun _ => "")
    {| name := "T"; source := "S"; column_mapping := ∅; column_rules := [];
       primary_key := ["id"]; source_df := Fixture.ids []; snow_df := Fixture.ids [];
       common_columns := ["id"] |}
    {| tot_source := 0; tot_snow := 0; unique_source := 0; unique_snow := 0;
       source_duplicates := 0; snow_duplicates := 0; identical_records := 0;
       column_overlap_text := ""; runtime := S754_zero false |}
  = Err ZeroDivisionError.
Proof. split; reflexivity. Qed.

(** ** Nulls in the overlap *)

Lemma agreeing_rows_app (df : Merged) (c : string) (l1 l2 : list merged_row) :
  length (filter
    (fun r => py_eq (cell (m_xcols df) (mr_x r) c) (cell (m_ycols df) (mr_y r) c) = true)
    (l1 ++ l2)%list)
  = (length (filter
      (fun r => py_eq (cell (m_xcols df) (mr_x r) c) (cell (m_ycols df) (mr_y r) c) = true) l1)
     + length (filter
      (fun r => py_eq (cell (m_xcols df) (mr_x r) c) (cell (m_ycols df) (mr_y r) c) = true) l2))%nat.
Proof. by rewrite filter_app, length_app. Qed.

(** C10, as the code has it.  A matched row that holds the null marker
    on both sides of a column is a disagreement on that column: its
    flag in the comparison is false, it is not among the agreeing rows
    and it is among the matched rows.  With such a row added to a
    matched set, the percentage of the column is computed from the same
    number of agreeing rows and one more matched row. *)
Theorem null_pair_counts_as_disagreement
  (df df' : Merged) (c : string) (r : merged_row) (l1 l2 : list merged_row) :
  m_xcols df' = m_xcols df -> m_ycols df' = m_ycols df -> m_on df' = m_on df ->
  m_rows df = (l1 ++ l2)%list -> m_rows df' = (l1 ++ r :: l2)%list ->
  cell (m_xcols df) (mr_x r) c = NaN -> cell (m_ycols df) (mr_y r) c = NaN ->
  comparable df c ->
  exists mask', overlap_mask df' c = Ok mask' /\
    mask' !! length l1 = Some false /\
    agreeing_rows df' c = agreeing_rows df c /\
    len (m_rows df') = len (m_rows df) + 1 /\
    match_percent df' mask'
    = (q ← int_truediv (agreeing_rows df c) (len (m_rows df) + 1);
       p ← float_round q 2;
       Ok (float_mul p float_100)).
Proof.
  intros Hx Hy Hon Hrows Hrows' Hcx Hcy Hc.
  assert (Hc' : comparable df' c) by (unfold comparable; by rewrite Hx, Hy, Hon).
  destruct (overlap_mask_comparable df' c Hc') as (mask' & Hmask' & _).
  assert (Hagree : agreeing_rows df' c = agreeing_rows df c).
  { unfold agreeing_rows. rewrite Hx, Hy, Hrows, Hrows'. f_equal.
    rewrite !agreeing_rows_app. f_equal.
    rewrite filter_cons_False; [done|]. by rewrite Hcx, Hcy. }
  assert (Hlen : len (m_rows df') = len (m_rows df) + 1).
  { unfold len. rewrite Hrows, Hrows', !length_app. cbn [length]. lia. }
  exists mask'. split; [done|]. split; [|split; [done|split; [done|]]].
  - revert Hmask'. unfold overlap_mask. destruct (_ && _); [|done]. intros [= <-].
    rewrite Hrows', Hx, Hy, fmap_app, fmap_cons, Hcx, Hcy.
    rewrite lookup_app_r by (by rewrite length_fmap).
    by rewrite length_fmap, Nat.sub_diag.
  - unfold match_percent. rewrite (overlap_mask_count df' c mask' Hmask'), Hagree.
    fold (len (m_rows df')). by rewrite Hlen.
Qed.

(** One matched row that agrees; a second one, null on both sides of
    [val], leaves one agreeing row out of two. *)
Lemma null_pair_counts_as_disagreement_witness :
  let r1 := {| mr_x := [VStr "1"; VStr "a"]; mr_y := [VStr "1"; VStr "a"]; mr_merge := both |} in
  let r2 := {| mr_x := [VStr "2"; NaN]; mr_y := [VStr "2"; NaN]; mr_merge := both |} in
  let df := {| m_xcols := ["id"; "val"]; m_ycols := ["id"; "val"]; m_on := ["id"];
               m_rows := [r1] |} in
  let df' := {| m_xcols := ["id"; "val"]; m_ycols := ["id"; "val"]; m_on := ["id"];
                m_rows := [r1; r2] |} in
  exists mask', overlap_mask df' "val" = Ok mask' /\
    mask' !! 1%nat = Some false /\
    agreeing_rows df' "val" = agreeing_rows df "val" /\
    len (m_rows df') = len (m_rows df) + 1 /\
    match_percent df' mask'
    = (q ← int_truediv (agreeing_rows df "val") (len (m_rows df) + 1);
       p ← float_round q 2;
       Ok (float_mul p float_100)).
Proof.
  intros r1 r2 df df'.
  apply (null_pair_counts_as_disagreement df df' "val" r2 [r1] []); try reflexivity.
  unfold comparable. simpl. repeat split; [by apply (bool_decide_unpack _).. |].
  intros H. by apply (bool_decide_pack _) in H.
Defined.

(** A matched set on [id] and [val]: [agree] rows that agree on [val],
    then one that disagrees, then [nulls] rows null on both sides. *)
Definition null_pair_set (agree nulls : nat) : Merged :=
  {| m_xcols := ["id"; "val"]; m_ycols := ["id"; "val"]; m_on := ["id"];
     m_rows :=
       (replicate agree
          {| mr_x := [VStr "1"; VStr "a"]; mr_y := [VStr "1"; VStr "a"]; mr_merge := both |}
        ++ {| mr_x := [VStr "2"; VStr "b"]; mr_y := [VStr "2"; VStr "c"]; mr_merge := both |}
        :: replicate nulls
             {| mr_x := [VStr "3"; NaN]; mr_y := [VStr "3"; NaN]; mr_merge := both |})%list |}.

Definition float_99 : spec_float := float_mul (float_of_ratio false 99 100) float_100.

(** C10, as stated, fails in its last clause: the null pair does not
    always lower the percentage reported.  With no agreeing row it
    stays 0.0, and with 199 agreeing rows of 200 it stays 99.0 when the
    null pair makes them 199 of 201. *)
Lemma null_pair_leaves_percentage :
  (exists mask mask',
     overlap_mask (null_pair_set 0 0) "val" = Ok mask /\
     overlap_mask (null_pair_set 0 1) "val" = Ok mask' /\
     mask' !! 1%nat = Some false /\
     match_percent (null_pair_set 0 0) mask = Ok (S754_zero false) /\
     match_percent (null_pair_set 0 1) mask' = Ok (S754_zero false)) /\
  (exists mask mask',
     overlap_mask (null_pair_set 199 0) "val" = Ok mask /\
     overlap_mask (null_pair_set 199 1) "val" = Ok mask' /\
     mask' !! 200%nat = Some false /\
     agreeing_rows (null_pair_set 199 0) "val" = 199 /\
     agreeing_rows (null_pair_set 199 1) "val" = 199 /\
     len (m_rows (null_pair_set 199 0)) = 200 /\
     len (m_rows (null_pair_set 199 1)) = 201 /\
     match_percent (null_pair_set 199 0) mask = Ok float_99 /\
     match_percent (null_pair_set 199 1) mask' = Ok float_99).
Proof.
  split.
  - eexists. eexists. split; [reflexivity|]. split; [reflexivity|].
    repeat split; vm_compute; reflexivity.
  - eexists. eexists. split; [vm_compute; reflexivity|]. split; [vm_compute; reflexivity|].
    repeat split; vm_compute; reflexivity.
Qed.

(** * Further properties *)

(** ** The string rules *)

Lemma prefix_refl s : String.prefix s s = true.
Proof. induction s as [|c s IH]; simpl; [done|]. by destruct (ascii_dec c c). Qed.

Lemma remove_from_skip_all old s : forall k, (String.length s <= k)%nat ->
  remove_from old s k = "".
Proof.
  induction s as [|c s IH]; intros k Hk; simpl in *; [done|].
  destruct k as [|k]; [lia|]. apply IH. lia.
Qed.

Lemma remove_from_absent old s :
  contains old s = false -> remove_from old s O = s.
Proof.
  induction s as [|c s IH]; [done|].
  cbn [contains remove_from]. intros [Hp Hc]%orb_false_iff.
  rewrite Hp. f_equal. by apply IH.
Qed.



(** The guard [x == np.nan] of [capitalize_rule] is dead: every value,
    the null marker included, is turned into the upper-cased text of
    [str(x)], so a null cell becomes the string [str.upper] makes of
    ["nan"]. *)
Theorem capitalize_rule_never_passes_null
  (finite_repr : bool -> positive -> Z -> string) (str_upper : string -> string) (x : scalar) :
  capitalize_rule finite_repr str_upper x = VStr (str_upper (py_str finite_repr x)) /\
  capitalize_rule finite_repr str_upper NaN = VStr (str_upper "nan").
Proof.
  unfold capitalize_rule. rewrite !py_eq_NaN_r. done.
Qed.

(** Stripping a value from its own text leaves nothing, and the empty
    result is the null marker. *)
Theorem strip_rule_self_is_null
  (finite_repr : bool -> positive -> Z -> string) (x value : scalar) :
  py_str finite_repr value = py_str finite_repr x ->
  strip_rule finite_repr x value = NaN.
Proof.
  intros H. unfold strip_rule. rewrite H.
  destruct (py_str finite_repr x) as [|c s] eqn:E; [done|].
  unfold str_remove. cbn [remove_from].
  rewrite prefix_refl. cbn [String.length Nat.pred].
  by rewrite remove_from_skip_all.
Qed.

Lemma strip_rule_self_is_null_witness :
  strip_rule Fixture.no_repr (VStr "N/A") (VStr "N/A") = NaN.
Proof. apply strip_rule_self_is_null. reflexivity. Defined.

(** A value whose text does not occur in the cell leaves the cell as
    its text, unless the cell is empty. *)
Theorem strip_rule_absent_value
  (finite_repr : bool -> positive -> Z -> string) (x value : scalar) :
  contains (py_str finite_repr value) (py_str finite_repr x) = false ->
  py_str finite_repr x <> "" ->
  strip_rule finite_repr x value = VStr (py_str finite_repr x).
Proof.
  intros Hc Hne. unfold strip_rule, str_remove.
  destruct (py_str finite_repr value) as [|c o] eqn:Ev.
  - apply String.eqb_neq in Hne. by rewrite Hne.
  - rewrite (remove_from_absent _ _ Hc). apply String.eqb_neq in Hne. by rewrite Hne.
Qed.

Lemma strip_rule_absent_value_witness :
  strip_rule Fixture.no_repr (VStr "2020-10-19") (VStr "/") = VStr "2020-10-19".
Proof.
  apply (strip_rule_absent_value Fixture.no_repr (VStr "2020-10-19") (VStr "/"));
    [reflexivity | discriminate].
Defined.


(** Appending and prepending act on the two ends of the text: two
    appends are one append of the joined suffixes, and an append and a
    prepend can be done in either order. *)
Theorem append_prepend_compose
  (finite_repr : bool -> positive -> Z -> string) (x a b : scalar) :
  append_rule finite_repr (append_rule finite_repr x a) b
  = append_rule finite_repr x (VStr (py_str finite_repr a +:+ py_str finite_repr b)) /\
  prepend_rule finite_repr (append_rule finite_repr x a) b
  = append_rule finite_repr (prepend_rule finite_repr x b) a.
Proof.
  unfold append_rule, prepend_rule. simpl. by rewrite !str_append_assoc.
Qed.

(** ** [cast_int] and [round_rule] *)

Lemma digit_value_nonneg c : is_decimal c = true -> 0 <= digit_value c.
Proof.
  unfold is_decimal, in_range, digit_value. intros [H1 H2]%andb_true_iff.
  apply N.leb_le in H1. lia.
Qed.

(** What [take_digits] returns: a value that is not below the one it
    started from, an empty rest exactly when every character is a
    decimal digit, and then the length of the text as the number of
    digits. *)
Lemma take_digits_spec s : forall acc n,
  0 <= acc ->
  0 <= (take_digits s acc n).1.1 /\
  ((take_digits s acc n).2 = "" <-> str_all is_decimal s = true) /\
  (str_all is_decimal s = true ->
   (take_digits s acc n).1.2 = n + Z.of_nat (String.length s)).
Proof.
  induction s as [|c s IH]; intros acc n Hacc; simpl; [repeat split; lia|].
  destruct (is_decimal c) eqn:E; simpl.
  - pose proof (digit_value_nonneg c E).
    destruct (IH (10 * acc + digit_value c) (n + 1) ltac:(lia)) as (H1 & H2 & H3).
    split; [done|]. split; [done|]. intros Hall. rewrite (H3 Hall). lia.
  - split; [done|]. split; [split; done | done].
Qed.

(** The text [cast_int] hands to [isnumeric] and [int]. *)
Definition cast_int_text (s : string) : string :=
  if String.eqb (lstrip "0" s) "" then "0" else lstrip "0" s.

(** [cast_int] on a value that is not a [str] ([None], an [int], a
    [float]) raises [AttributeError]: there is no [lstrip] to call. *)
Theorem cast_int_needs_text (x : scalar) :
  (forall s, x <> VStr s) -> cast_int x = Err AttributeError.
Proof.
  intros H. unfold cast_int. rewrite py_eq_NaN_r.
  destruct x as [|s|z|f]; try done. by destruct (H s).
Qed.

Lemma cast_int_needs_text_witness : cast_int (VInt 7) = Err AttributeError.
Proof. apply cast_int_needs_text. intros s. discriminate. Defined.

(** [cast_int] on text.  A leading zero does not change the result.
    Text that [isnumeric] refuses (a sign, a decimal point, letters)
    gives 0; decimal digits give an [int] that is not negative, up to
    the number of digits [int] converts, and [ValueError] beyond; and
    text that [isnumeric] accepts but [int] does not (a superscript
    digit, a vulgar fraction) raises [ValueError]. *)
Theorem cast_int_on_text (s : string) :
  cast_int (VStr (String "0" s)) = cast_int (VStr s) /\
  if isnumeric (cast_int_text s)
  then if str_all is_decimal (cast_int_text s)
       then if Z.of_nat (String.length (cast_int_text s)) <=? int_max_str_digits
            then exists z, 0 <= z /\ cast_int (VStr s) = Ok (VInt z)
            else cast_int (VStr s) = Err ValueError
       else cast_int (VStr s) = Err ValueError
  else cast_int (VStr s) = Ok (VInt 0).
Proof.
  split; [reflexivity|].
  unfold cast_int. rewrite py_eq_NaN_r. cbn [method_lstrip mbind result_bind].
  fold (cast_int_text s). set (t := cast_int_text s).
  destruct (isnumeric t); [|done].
  unfold int_of_numeric.
  pose proof (take_digits_spec t 0 0 ltac:(lia)) as (Hz & Hrest & Hlen).
  destruct (take_digits t 0 0) as [[z k] r]. simpl in Hz, Hrest, Hlen.
  destruct (str_all is_decimal t).
  - assert (r = "") as -> by (by apply Hrest). rewrite (Hlen eq_refl), Z.add_0_l.
    destruct (Z.leb_spec (Z.of_nat (String.length t)) int_max_str_digits) as [Hle|Hgt].
    + destruct (Z.ltb_spec int_max_str_digits (Z.of_nat (String.length t))); [lia|].
      exists z. done.
    + destruct (Z.ltb_spec int_max_str_digits (Z.of_nat (String.length t))); [done | lia].
  - destruct r as [|c r]; [|done]. by destruct Hrest as [Hrest _]; specialize (Hrest eq_refl).
Qed.

(** [round_rule] with a parameter that is text or a [float] (a
    mapping file that writes the number of places as ["2"] or [2.0])
    never returns: what [float] raises on the cell is raised, and when
    [float] goes through [round] refuses the parameter with
    [TypeError].  The cell is read as 0 when it is the text ["None"],
    and as it stands otherwise, the null marker included. *)
Theorem round_rule_needs_int_parameter (x : scalar) (s : string) (f : spec_float) :
  round_rule x (VStr s)
  = match py_float (if py_eq x (VStr "None") then VInt 0 else x) with
    | Ok _ => Err TypeError
    | Err e => Err e
    end /\
  round_rule x (VFloat f)
  = match py_float (if py_eq x (VStr "None") then VInt 0 else x) with
    | Ok _ => Err TypeError
    | Err e => Err e
    end.
Proof.
  unfold round_rule. rewrite py_eq_NaN_r. cbn [orb].
  by destruct (py_float _) as [g|e].
Qed.

(** The result of [round_rule] has the type [round] gives it: a
    [float] for an [int] parameter, an [int] for the parameter [None]. *)
Theorem round_rule_result_type (x value v : scalar) :
  round_rule x value = Ok v ->
  match value with
  | VInt _ => exists f, v = VFloat f
  | VNone => exists z, v = VInt z
  | _ => False
  end.
Proof.
  unfold round_rule. destruct (py_float _) as [g|e]; simpl; [|done].
  destruct value as [|s|n|f]; simpl; try done.
  - destruct (float_round_int g); simpl; [|done]. intros [= <-]. eauto.
  - destruct (float_round g n); simpl; [|done]. intros [= <-]. eauto.
Qed.

Lemma round_rule_result_type_witness :
  exists f, VFloat (float_of_ratio false 314 100) = VFloat f.
Proof.
  apply (round_rule_result_type (VStr "3.14159") (VInt 2)). vm_compute. reflexivity.
Defined.

(** ** The mapping file *)

Lemma prefix_app k post : String.prefix k (k +:+ post) = true.
Proof.
  induction k as [|c k IH]; [by destruct post|].
  change (String c k +:+ post) with (String c (k +:+ post)). cbn [String.prefix].
  by destruct (ascii_dec c c).
Qed.

Lemma contains_app pre k post : contains k (pre +:+ k +:+ post) = true.
Proof.
  induction pre as [|c pre IH].
  - change ("" +:+ k +:+ post) with (k +:+ post).
    destruct (k +:+ post) eqn:E; cbn [contains]; rewrite <- E, prefix_app; done.
  - change (String c pre +:+ k +:+ post) with (String c (pre +:+ k +:+ post)).
    cbn [contains]. rewrite IH. apply orb_true_r.
Qed.

Lemma read_mapping_file_no_match table_name json_dict : forall acc,
  Forall (fun e => contains e.1 table_name = false) json_dict ->
  read_mapping_file table_name json_dict acc = acc.
Proof.
  induction json_dict as [|[k cfg] rest IH]; intros acc H; simpl; [done|].
  apply Forall_cons in H as [Hk Hrest]. simpl in Hk. rewrite Hk. by apply IH.
Qed.

(** Of the entries of the mapping file whose key occurs in the table
    name, the last one is the one in force. *)
Theorem read_mapping_file_last_match
  (table_name : string) (before after : list (string * Config)) (table : string)
  (cfg acc : Config) :
  contains table table_name = true ->
  Forall (fun e => contains e.1 table_name = false) after ->
  read_mapping_file table_name (before ++ (table, cfg) :: after) acc = cfg.
Proof.
  intros Hin Hafter. revert acc.
  induction before as [|[k c] before IH]; intros acc; simpl.
  - rewrite Hin. by apply read_mapping_file_no_match.
  - apply IH.
Qed.

Lemma read_mapping_file_last_match_witness :
  let c1 := {| Columns := ∅; Rules := []; PK := ["A"] |} in
  let c2 := {| Columns := ∅; Rules := []; PK := ["B"] |} in
  let c3 := {| Columns := ∅; Rules := []; PK := ["C"] |} in
  read_mapping_file "ORDERS" ([("ORD", c1)] ++ ("ORDER", c2) :: [("ITEMS", c3)])
    {| Columns := ∅; Rules := []; PK := [] |} = c2.
Proof.
  intros c1 c2 c3. apply read_mapping_file_last_match; [reflexivity|].
  repeat constructor.
Defined.

(** A key matches by occurrence, not by equality: the entry of a table
    configures every table whose name holds that key somewhere, and an
    entry with the empty key configures every table. *)
Theorem read_mapping_file_matches_substrings
  (pre table post : string) (cfg acc : Config) :
  read_mapping_file (pre +:+ table +:+ post) [(table, cfg)] acc = cfg /\
  read_mapping_file (pre +:+ post) [("", cfg)] acc = cfg.
Proof.
  split; simpl.
  - by rewrite contains_app.
  - change (pre +:+ post) with (pre +:+ "" +:+ post). by rewrite contains_app.
Qed.

(** ** Rules on a table *)

Lemma rmap_lookup {A B} (f : A -> result B) l : forall l',
  rmap f l = Ok l' ->
  length l' = length l /\
  forall i a b, l !! i = Some a -> l' !! i = Some b -> f a = Ok b.
Proof.
  induction l as [|a l IH]; intros l'; simpl.
  - intros [= <-]. split; [done | by intros []].
  - destruct (f a) as [b|] eqn:Hb; simpl; [|done].
    destruct (rmap f l) as [bs|] eqn:Hbs; simpl; [|done].
    intros [= <-]. destruct (IH bs eq_refl) as [Hlen Hall]. split; [simpl; lia|].
    intros [|i] a' b'; simpl.
    + by intros [= <-] [= <-].
    + apply Hall.
Qed.

Lemma col_index_lookup c cols : forall i, col_index c cols = Some i -> cols !! i = Some c.
Proof.
  induction cols as [|d cols IH]; intros i; simpl; [done|].
  destruct (String.eqb_spec c d) as [->|Hne].
  - by intros [= <-].
  - destruct (col_index c cols) as [j|]; simpl; [|done].
    intros [= <-]. by apply IH.
Qed.

Lemma col_index_elem c cols : c ∈ cols -> exists i, col_index c cols = Some i.
Proof.
  induction cols as [|d cols IH]; [by intros H%elem_of_nil|].
  simpl. destruct (String.eqb_spec c d) as [->|Hne]; [eauto|].
  intros [->|H]%elem_of_cons; [done|].
  destruct (IH H) as [i ->]. simpl. eauto.
Qed.

(** [df[c] = df[c].apply(f)] keeps the labels and the number of rows,
    and in every row the cells under the other labels. *)
Lemma apply_column_frame f c df df' :
  apply_column f c df = Ok df' ->
  columns df' = columns df /\
  length (rows df') = length (rows df) /\
  forall i row row' c',
    rows df !! i = Some row -> rows df' !! i = Some row' -> c' <> c ->
    cell (columns df) row' c' = cell (columns df) row c'.
Proof.
  unfold apply_column. destruct (col_index c (columns df)) as [k|] eqn:Hk; [|done].
  destruct (rmap _ (rows df)) as [rs|] eqn:Hrs; simpl; [|done].
  intros [= <-]. simpl. apply rmap_lookup in Hrs as [Hlen Hall].
  split; [done|]. split; [done|].
  intros i row row' c' Hrow Hrow' Hne.
  specialize (Hall i row row' Hrow Hrow').
  destruct (f (nth k row NaN)) as [v|]; simpl in Hall; [|done].
  injection Hall as <-. unfold cell.
  destruct (col_index c' (columns df)) as [j|] eqn:Hj; [|done].
  rewrite !nth_lookup. rewrite list_lookup_insert_ne; [done|].
  intros ->. apply col_index_lookup in Hk, Hj. congruence.
Qed.

(** The frame a rule is aimed at, and the other one. *)
Definition target_df (rule : Rule) (t : DB_Table) : DataFrame :=
  if String.eqb (r_target rule) "source" then source_df t else snow_df t.

Definition other_df (rule : Rule) (t : DB_Table) : DataFrame :=
  if String.eqb (r_target rule) "source" then snow_df t else source_df t.

(** A rule with a target other than ["source"] and ["snow"] raises
    [KeyError], whatever its column and operation. *)
Theorem apply_rule_unknown_target
  (finite_repr : bool -> positive -> Z -> string) (str_upper : string -> string)
  (t : DB_Table) (rule : Rule) :
  r_target rule <> "source" -> r_target rule <> "snow" ->
  apply_rule finite_repr str_upper t rule = Err KeyError.
Proof.
  intros H1%String.eqb_neq H2%String.eqb_neq. unfold apply_rule. by rewrite H1, H2.
Qed.

Lemma apply_rule_unknown_target_witness :
  apply_rule Fixture.no_repr Fixture.ascii_upper
    {| name := "T"; source := "S"; column_mapping := ∅; column_rules := [];
       primary_key := ["id"]; source_df := Fixture.ids ["1"]; snow_df := Fixture.ids ["1"];
       common_columns := ["id"] |}
    {| r_target := "snowflake"; r_column := "id"; r_operation := "none"; r_value := None |}
  = Err KeyError.
Proof. apply apply_rule_unknown_target; discriminate. Defined.

(** A rule on a column its frame does not have is skipped: the table
    stays as it is, even when the operation is unknown or the rule
    lacks the value its operation needs. *)
Theorem apply_rule_skips_absent_column
  (finite_repr : bool -> positive -> Z -> string) (str_upper : string -> string)
  (t : DB_Table) (rule : Rule) :
  r_target rule = "source" \/ r_target rule = "snow" ->
  r_column rule ∉ columns (target_df rule t) ->
  apply_rule finite_repr str_upper t rule = Ok t.
Proof.
  unfold apply_rule, target_df, has_column. intros [H | H] Hc; rewrite H in *; simpl in *.
  - by rewrite bool_decide_eq_false_2.
  - by rewrite bool_decide_eq_false_2.
Qed.

Lemma apply_rule_skips_absent_column_witness :
  let t := {| name := "T"; source := "S"; column_mapping := ∅; column_rules := [];
              primary_key := ["id"]; source_df := Fixture.ids ["1"];
              snow_df := Fixture.ids ["1"]; common_columns := ["id"] |} in
  apply_rule Fixture.no_repr Fixture.ascii_upper t
    {| r_target := "snow"; r_column := "val"; r_operation := "round"; r_value := None |}
  = Ok t.
Proof.
  intros t. apply apply_rule_skips_absent_column; [by right|].
  intros H. by apply (bool_decide_pack _) in H.
Defined.

(** A rule whose operation needs a value ([append], [prepend], [strip],
    [round]) and has none raises [KeyError] when its column is there. *)
Theorem apply_rule_missing_value
  (finite_repr : bool -> positive -> Z -> string) (str_upper : string -> string)
  (t : DB_Table) (rule : Rule) :
  r_target rule = "source" \/ r_target rule = "snow" ->
  r_column rule ∈ columns (target_df rule t) ->
  r_operation rule ∈ ["append"; "prepend"; "strip"; "round"] ->
  r_value rule = None ->
  apply_rule finite_repr str_upper t rule = Err KeyError.
Proof.
  unfold apply_rule, target_df, has_column, rule_function, rule_value.
  intros Ht Hc Hop Hv. rewrite Hv.
  assert (Hop' : r_operation rule = "append" \/ r_operation rule = "prepend" \/
                 r_operation rule = "strip" \/ r_operation rule = "round").
  { rewrite !elem_of_cons in Hop. destruct Hop as [?|[?|[?|[?|H]]]]; auto.
    by apply elem_of_nil in H. }
  destruct Ht as [H | H]; rewrite H in *; simpl in *;
    rewrite bool_decide_eq_true_2 by done; simpl;
    destruct Hop' as [-> | [-> | [-> | ->]]]; reflexivity.
Qed.

Lemma apply_rule_missing_value_witness :
  apply_rule Fixture.no_repr Fixture.ascii_upper
    {| name := "T"; source := "S"; column_mapping := ∅; column_rules := [];
       primary_key := ["id"]; source_df := Fixture.ids ["1"]; snow_df := Fixture.ids ["1"];
       common_columns := ["id"] |}
    {| r_target := "source"; r_column := "id"; r_operation := "strip"; r_value := None |}
  = Err KeyError.
Proof.
  apply apply_rule_missing_value; [by left | | | reflexivity].
  - by apply (bool_decide_unpack _).
  - by apply (bool_decide_unpack _).
Defined.

(** A rule that goes through on a frame with distinct labels rewrites
    one column of one frame: the
    other frame, the primary key and the common columns are as before,
    and the frame it is aimed at keeps its labels, its number of rows
    and, in every row, the cells under the other labels. *)
Theorem apply_rule_touches_one_column
  (finite_repr : bool -> positive -> Z -> string) (str_upper : string -> string)
  (t t' : DB_Table) (rule : Rule) :
  NoDup (columns (target_df rule t)) ->
  apply_rule finite_repr str_upper t rule = Ok t' ->
  other_df rule t' = other_df rule t /\
  primary_key t' = primary_key t /\
  common_columns t' = common_columns t /\
  columns (target_df rule t') = columns (target_df rule t) /\
  length (rows (target_df rule t')) = length (rows (target_df rule t)) /\
  forall i row row' c,
    rows (target_df rule t) !! i = Some row -> rows (target_df rule t') !! i = Some row' ->
    c <> r_column rule ->
    cell (columns (target_df rule t)) row' c = cell (columns (target_df rule t)) row c.
Proof.
  intros _. unfold apply_rule, target_df, other_df.
  assert (Hsame : forall i (row row' : list scalar) (c : string) (df : DataFrame),
             rows df !! i = Some row -> rows df !! i = Some row' ->
             cell (columns df) row' c = cell (columns df) row c).
  { intros i row row' c df H1 H2. congruence. }
  destruct (String.eqb (r_target rule) "source") eqn:Hs; simpl.
  - destruct (negb _); [intros [= <-]; repeat split; eauto|].
    destruct (rule_function _ _ _) as [[f|]|]; simpl; try done.
    + destruct (apply_column _ _ _) as [df'|] eqn:Hdf; simpl; [|done].
      intros [= <-]. simpl. apply apply_column_frame in Hdf as (H1 & H2 & H3).
      repeat split; eauto.
    + intros [= <-]; repeat split; eauto.
  - destruct (String.eqb (r_target rule) "snow"); simpl; [|done].
    destruct (negb _); [intros [= <-]; repeat split; eauto|].
    destruct (rule_function _ _ _) as [[f|]|]; simpl; try done.
    + destruct (apply_column _ _ _) as [df'|] eqn:Hdf; simpl; [|done].
      intros [= <-]. simpl. apply apply_column_frame in Hdf as (H1 & H2 & H3).
      repeat split; eauto.
    + intros [= <-]; repeat split; eauto.
Qed.

Lemma apply_rule_touches_one_column_witness :
  let t := {| name := "T"; source := "S"; column_mapping := ∅; column_rules := [];
              primary_key := ["id"]; source_df := Fixture.id_val [("1", "a b")];
              snow_df := Fixture.id_val [("1", "a")]; common_columns := ["id"; "val"] |} in
  let rule := {| r_target := "source"; r_column := "val"; r_operation := "trunc_date";
                 r_value := None |} in
  let t' := set_source_df (Fixture.id_val [("1", "a")]) t in
  other_df rule t' = other_df rule t /\
  primary_key t' = primary_key t /\
  common_columns t' = common_columns t /\
  columns (target_df rule t') = columns (target_df rule t) /\
  length (rows (target_df rule t')) = length (rows (target_df rule t)) /\
  forall i row row' c,
    rows (target_df rule t) !! i = Some row -> rows (target_df rule t') !! i = Some row' ->
    c <> r_column rule ->
    cell (columns (target_df rule t)) row' c = cell (columns (target_df rule t)) row c.
Proof.
  intros t rule t'.
  apply (apply_rule_touches_one_column Fixture.no_repr Fixture.ascii_upper t t' rule).
  - apply (bool_decide_unpack _). reflexivity.
  - reflexivity.
Defined.

(** ** Construction of a table *)

Lemma rename_empty df : rename ∅ df = df.
Proof.
  destruct df as [cols rs]. unfold rename. simpl. f_equal.
  induction cols as [|c cols IH]; [done|]. rewrite fmap_cons, IH. done.
Qed.

(** A table that no entry of the mapping file matches is built with
    its two frames as loaded, no rule and an empty primary key. *)
Theorem DB_Table_init_without_mapping
  (finite_repr : bool -> positive -> Z -> string) (str_upper : string -> string)
  (source name : string) (source_csv snow_csv : DataFrame)
  (json_dict : list (string * Config)) :
  Forall (fun e => contains e.1 name = false) json_dict ->
  source <> "DATAVISION" ->
  exists t,
    DB_Table_init finite_repr str_upper source name source_csv snow_csv json_dict = Ok t /\
    source_df t = source_csv /\ snow_df t = snow_csv /\
    column_rules t = [] /\ primary_key t = [].
Proof.
  intros Hno Hsrc%String.eqb_neq. unfold DB_Table_init.
  rewrite (read_mapping_file_no_match _ _ _ Hno). simpl. rewrite Hsrc.
  eexists. split; [reflexivity|]. simpl. by rewrite rename_empty.
Qed.

Lemma DB_Table_init_without_mapping_witness :
  exists t,
    DB_Table_init Fixture.no_repr Fixture.ascii_upper "SAP" "ORDERS"
      (Fixture.ids ["1"]) (Fixture.ids ["2"])
      [("ITEMS", {| Columns := ∅; Rules := []; PK := ["id"] |})] = Ok t /\
    source_df t = Fixture.ids ["1"] /\ snow_df t = Fixture.ids ["2"] /\
    column_rules t = [] /\ primary_key t = [].
Proof.
  apply DB_Table_init_without_mapping; [|discriminate].
  repeat constructor.
Defined.

(** A rule that raises stops the construction: no table is built when
    the first rule of the entry in force has an unknown target. *)
Theorem DB_Table_init_bad_first_rule
  (finite_repr : bool -> positive -> Z -> string) (str_upper : string -> string)
  (source name : string) (source_csv snow_csv : DataFrame)
  (json_dict : list (string * Config)) (rule : Rule) (rest : list Rule) :
  Rules (read_mapping_file name json_dict {| Columns := ∅; Rules := []; PK := [] |})
  = rule :: rest ->
  r_target rule <> "source" -> r_target rule <> "snow" ->
  DB_Table_init finite_repr str_upper source name source_csv snow_csv json_dict
  = Err KeyError.
Proof.
  intros Hrules H1%String.eqb_neq H2%String.eqb_neq. unfold DB_Table_init.
  rewrite Hrules. cbn [apply_rules]. unfold apply_rule at 1. by rewrite H1, H2.
Qed.

Lemma DB_Table_init_bad_first_rule_witness :
  DB_Table_init Fixture.no_repr Fixture.ascii_upper "SAP" "ORDERS"
    (Fixture.ids ["1"]) (Fixture.ids ["2"])
    [("ORDERS", {| Columns := ∅;
                   Rules := [ {| r_target := "both"; r_column := "id";
                                 r_operation := "none"; r_value := None |} ];
                   PK := ["id"] |})]
  = Err KeyError.
Proof.
  eapply DB_Table_init_bad_first_rule; [reflexivity | discriminate | discriminate].
Defined.

(** ** Null tokens of a whole table *)

(** A cell after [none_rule] may have gone through: itself or the null
    marker. *)
Definition nulled (v v' : scalar) : Prop := v' = v \/ v' = NaN.

#[local] Instance nulled_refl : Reflexive nulled.
Proof. by left. Qed.

#[local] Instance nulled_trans : Transitive nulled.
Proof. unfold nulled. intros v1 v2 v3 [->| ->] [->| ->]; auto. Qed.

Definition rows_nulled (rs rs' : list (list scalar)) : Prop :=
  Forall2 (Forall2 nulled) rs rs'.

Lemma rows_nulled_refl rs : rows_nulled rs rs.
Proof. unfold rows_nulled. reflexivity. Qed.

Lemma rows_nulled_trans rs1 rs2 rs3 :
  rows_nulled rs1 rs2 -> rows_nulled rs2 rs3 -> rows_nulled rs1 rs3.
Proof. unfold rows_nulled. intros H1 H2. by etrans. Qed.

Lemma rmap_total {A B} (f : A -> result B) (g : A -> B) (l : list A) :
  (forall a, f a = Ok (g a)) -> rmap f l = Ok (g <$> l).
Proof.
  intros H. induction l as [|a l IH]; [done|].
  cbn [rmap]. rewrite H, IH. reflexivity.
Qed.

Section NullTokens.

Variable finite_repr : bool -> positive -> Z -> string.

Lemma none_rule_insert row i :
  Forall2 nulled row (<[i := none_rule finite_repr (nth i row NaN)]> row).
Proof.
  destruct (row !! i) as [v|] eqn:Hv.
  - rewrite nth_lookup, Hv. simpl.
    rewrite <- (list_insert_id row i v Hv) at 1.
    apply Forall2_insert.
    + reflexivity.
    + destruct (none_rule_cases finite_repr v) as [H | H]; rewrite H; [by right | by left].
  - rewrite list_insert_ge by (by apply lookup_ge_None). reflexivity.
Qed.

Lemma apply_column_none c df :
  c ∈ columns df ->
  exists df', apply_column (fun x => Ok (none_rule finite_repr x)) c df = Ok df' /\
    columns df' = columns df /\ rows_nulled (rows df) (rows df').
Proof.
  intros Hc. unfold apply_column.
  destruct (col_index_elem c (columns df) Hc) as [i ->].
  rewrite (rmap_total _ (fun row => <[i := none_rule finite_repr (nth i row NaN)]> row))
    by (intros; reflexivity).
  eexists. split; [reflexivity|]. split; [done|]. simpl.
  apply Forall2_fmap_r, Forall_Forall2_diag, Forall_forall.
  intros row _. apply none_rule_insert.
Qed.

Lemma none_columns_total cols : forall df,
  cols ⊆ columns df ->
  exists df', none_columns finite_repr cols df = Ok df' /\
    columns df' = columns df /\ rows_nulled (rows df) (rows df').
Proof.
  induction cols as [|c cols IH]; intros df Hsub; simpl.
  - exists df. split; [done|]. split; [done | apply rows_nulled_refl].
  - destruct (apply_column_none c df) as (d & Hd & Hcols & Hn).
    { apply Hsub. by left. }
    rewrite Hd. simpl.
    destruct (IH d) as (d' & Hd' & Hcols' & Hn').
    { rewrite Hcols. intros x Hx. apply Hsub. by right. }
    exists d'. split; [done|]. split; [congruence|].
    by eapply rows_nulled_trans.
Qed.

End NullTokens.

(** On frames with distinct labels [dv_none_rule] never raises, and
    all it does to either frame is to replace cells by the null marker: labels, number of rows and width
    of every row stay, and each cell is the old one or [nan]. *)
Theorem dv_none_rule_only_nulls
  (finite_repr : bool -> positive -> Z -> string) (t : DB_Table) :
  NoDup (columns (source_df t)) -> NoDup (columns (snow_df t)) ->
  exists t', dv_none_rule finite_repr t = Ok t' /\
    columns (source_df t') = columns (source_df t) /\
    columns (snow_df t') = columns (snow_df t) /\
    rows_nulled (rows (source_df t)) (rows (source_df t')) /\
    rows_nulled (rows (snow_df t)) (rows (snow_df t')) /\
    primary_key t' = primary_key t /\ common_columns t' = common_columns t.
Proof.
  intros _ _. unfold dv_none_rule.
  destruct (none_columns_total finite_repr (columns (source_df t)) (source_df t))
    as (s & Hs & Hsc & Hsn); [done|].
  destruct (none_columns_total finite_repr (columns (snow_df t)) (snow_df t))
    as (w & Hw & Hwc & Hwn); [done|].
  rewrite Hs. simpl. rewrite Hw. simpl.
  eexists. split; [reflexivity|]. simpl. done.
Qed.

Lemma dv_none_rule_only_nulls_witness :
  let t := {| name := "T"; source := "DATAVISION"; column_mapping := ∅; column_rules := [];
              primary_key := ["id"]; source_df := Fixture.id_val [("1", "None")];
              snow_df := Fixture.id_val [("1", "a")]; common_columns := ["id"; "val"] |} in
  exists t', dv_none_rule Fixture.no_repr t = Ok t' /\
    columns (source_df t') = columns (source_df t) /\
    columns (snow_df t') = columns (snow_df t) /\
    rows_nulled (rows (source_df t)) (rows (source_df t')) /\
    rows_nulled (rows (snow_df t)) (rows (snow_df t')) /\
    primary_key t' = primary_key t /\ common_columns t' = common_columns t.
Proof.
  intros t. apply dv_none_rule_only_nulls; apply (bool_decide_unpack _); reflexivity.
Defined.

(** ** Rows kept by duplicate detection *)

(** The keys of the rows [dup_mask] does not flag. *)
Definition kept_keys (seen ks : list (list atom)) : list (list atom) :=
  select (negb <$> dup_mask seen ks) ks.

Lemma kept_keys_spec ks : forall seen,
  NoDup (kept_keys seen ks) /\
  forall k, k ∈ kept_keys seen ks <-> k ∈ ks /\ k ∉ seen.
Proof.
  unfold kept_keys.
  induction ks as [|k0 ks IH]; intros seen; simpl.
  - split; [constructor|]. intros k. split; [by intros H%elem_of_nil | by intros [H%elem_of_nil _]].
  - destruct (IH (k0 :: seen)) as [Hnd Hel].
    case_bool_decide as Hin; simpl.
    + split; [done|]. intros k. rewrite Hel, not_elem_of_cons, elem_of_cons. split.
      * intros (H1 & H2 & H3). auto.
      * intros [[-> | H1] H2]; [done|]. split; [done|]. split; [|done]. by intros ->.
    + split.
      * constructor; [|done]. rewrite Hel, not_elem_of_cons. by intros (_ & ? & _).
      * intros k. rewrite !elem_of_cons, Hel, not_elem_of_cons. split.
        -- intros [-> | (H1 & H2 & H3)]; auto.
        -- intros [[-> | H1] H2]; [by left|].
           destruct (decide (k = k0)) as [->|Hne]; [by left | right; done].
Qed.

(** Duplicate detection keeps one row of every key: the rows it does
    not flag carry every key of the dataset, each once. *)
Theorem duplicated_keeps_one_row_per_key
  (df : DataFrame) (subset : list string) (mask : list bool) :
  rows df <> [] -> columns df <> [] ->
  duplicated df subset = Ok mask ->
  NoDup (select (negb <$> mask) (frame_keys df subset)) /\
  forall k, k ∈ select (negb <$> mask) (frame_keys df subset) <-> k ∈ frame_keys df subset.
Proof.
  intros Hr Hc. unfold duplicated.
  destruct (rows df) as [|r rs] eqn:Er; [done|].
  destruct (columns df) as [|c cs] eqn:Ec; [done|]. simpl.
  destruct (negb _); [done|]. destruct (is_nil subset); [done|].
  intros [= <-].
  destruct (kept_keys_spec (frame_keys df subset) []) as [Hnd Hel].
  split; [done|]. intros k. unfold kept_keys in Hel. rewrite Hel. split; [by intros [? _]|].
  intros H. split; [done | apply not_elem_of_nil].
Qed.

Lemma duplicated_keeps_one_row_per_key_witness :
  NoDup (select (negb <$> [false; false; true]) (frame_keys (Fixture.ids ["1"; "2"; "2"]) ["id"])) /\
  forall k, k ∈ select (negb <$> [false; false; true])
                  (frame_keys (Fixture.ids ["1"; "2"; "2"]) ["id"])
            <-> k ∈ frame_keys (Fixture.ids ["1"; "2"; "2"]) ["id"].
Proof.
  apply (duplicated_keeps_one_row_per_key (Fixture.ids ["1"; "2"; "2"]) ["id"]);
    [discriminate | discriminate | reflexivity].
Defined.

(** ** Rows of the outer join *)

(** The join loses no row: every source row stands in a matched or a
    source-only row, every reference row in a matched or a
    reference-only row, and a matched row pairs a source row and a
    reference row of the same key. *)
Theorem merge_covers_both_sides (left right : DataFrame) (on : list string) (m : Merged) :
  merge left right on = Ok m ->
  (forall l, l ∈ rows left ->
     exists r, r ∈ m_rows m /\ mr_x r = l /\ mr_merge r <> right_only) /\
  (forall y, y ∈ rows right ->
     exists r, r ∈ m_rows m /\ mr_y r = y /\ mr_merge r <> left_only) /\
  (forall r, r ∈ m_rows m -> mr_merge r = both ->
     mr_x r ∈ rows left /\ mr_y r ∈ rows right /\
     row_key (columns left) on (mr_x r) = row_key (columns right) on (mr_y r)).
Proof.
  intros ->%merge_Ok. simpl. unfold merge_rows. split; [|split].
  - intros l Hl.
    assert (H : exists r, r ∈ join_left left right on l /\ mr_x r = l /\ mr_merge r <> right_only).
    { unfold join_left. destruct (matches right on _) as [|y ys].
      - eexists. split; [by left|]. done.
      - eexists. split; [rewrite fmap_cons; by left|]. done. }
    destruct H as (r & Hr & Hx & Hm). exists r. split; [|done].
    apply elem_of_app. left. apply list_elem_of_bind. eauto.
  - intros y Hy.
    destruct (decide (row_key (columns right) on y ∈ frame_keys left on)) as [Hin|Hnin].
    + unfold frame_keys in Hin. apply list_elem_of_fmap in Hin as (l & Hk & Hl).
      exists {| mr_x := l; mr_y := y; mr_merge := both |}. split; [|done].
      apply elem_of_app. left. apply list_elem_of_bind. exists l. split; [|done].
      unfold join_left.
      assert (Hm : y ∈ matches right on (row_key (columns left) on l)).
      { unfold matches. apply list_elem_of_filter. done. }
      destruct (matches right on _) as [|y0 ys]; [by apply elem_of_nil in Hm|].
      by apply (list_elem_of_fmap_2 (fun r => Build_merged_row l r both)).
    + exists {| mr_x := nan_row (columns left); mr_y := y; mr_merge := right_only |}.
      split; [|done]. apply elem_of_app. right.
      apply (list_elem_of_fmap_2 (fun r => Build_merged_row (nan_row (columns left)) r right_only)).
      unfold unmatched_right. apply list_elem_of_filter. done.
  - intros r Hr Hboth. apply elem_of_app in Hr as [Hr | Hr].
    + apply list_elem_of_bind in Hr as (l & Hr & Hl). unfold join_left in Hr.
      destruct (matches right on _) as [|y0 ys] eqn:Em.
      * apply list_elem_of_singleton in Hr. subst r. done.
      * apply list_elem_of_fmap in Hr as (y & -> & Hy). simpl.
        rewrite <- Em in Hy. unfold matches in Hy. apply list_elem_of_filter in Hy as [Hk Hy].
        done.
    + apply list_elem_of_fmap in Hr as (y & -> & _). done.
Qed.

Lemma merge_covers_both_sides_witness :
  let left := Fixture.id_val [("1", "A"); ("2", "B")] in
  let right := Fixture.id_val [("1", "A"); ("3", "C")] in
  exists m, merge left right ["id"] = Ok m /\
    (forall l, l ∈ rows left ->
       exists r, r ∈ m_rows m /\ mr_x r = l /\ mr_merge r <> right_only) /\
    (forall y, y ∈ rows right ->
       exists r, r ∈ m_rows m /\ mr_y r = y /\ mr_merge r <> left_only).
Proof.
  intros left right. eexists. split; [reflexivity|].
  destruct (merge_covers_both_sides left right ["id"] _ eq_refl) as (H1 & H2 & _).
  exact (conj H1 H2).
Defined.

(** ** The report file *)

(** The path [report] writes to. *)
Definition report_path (w : World) : string :=
  location w +:+ "/OUTPUT/REPORT_STATS/" +:+ today w +:+ "/report" +:+ current_time w +:+ ".txt".

(** Whatever happens in [report], the flag [first_run] is cleared, no
    [.csv] output is touched and no report file but the one of this run
    is written. *)
Theorem report_clears_first_run
  (finite_repr : bool -> positive -> Z -> string) (repr_list : list string -> string)
  (format_5f : spec_float -> string) (table : DB_Table) (metric_dict : Counts) (w : World) :
  let w' := (report finite_repr repr_list format_5f table metric_dict w).2 in
  first_run w' = false /\
  csv_files w' = csv_files w /\
  forall p, p <> report_path w -> reports w' !! p = reports w !! p.
Proof.
  unfold report, mbind, M_bind, get_world, open_report, lift, write_report.
  fold (report_path w).
  destruct (report_text _ _ _ table metric_dict) as [text|e]; simpl.
  - split; [done|]. split; [done|]. intros p Hp.
    by rewrite !lookup_insert_ne.
  - split; [done|]. split; [done|]. intros p Hp.
    by rewrite lookup_insert_ne.
Qed.

(** A report that goes through adds its text at the end of the file of
    this run, after what earlier reports of the run wrote; on the first
    report of a run the file starts empty. *)
Theorem report_appends
  (finite_repr : bool -> positive -> Z -> string) (repr_list : list string -> string)
  (format_5f : spec_float -> string) (table : DB_Table) (metric_dict : Counts) (w : World)
  (text : string) :
  report_text finite_repr repr_list format_5f table metric_dict = Ok text ->
  exists w', report finite_repr repr_list format_5f table metric_dict w = (Ok (), w') /\
    reports w' !! report_path w
    = Some ((if first_run w then "" else default "" (reports w !! report_path w)) +:+ text).
Proof.
  intros Htext.
  unfold report, mbind, M_bind, get_world, open_report, lift, write_report.
  fold (report_path w). rewrite Htext. simpl.
  eexists. split; [reflexivity|]. simpl.
  by rewrite !lookup_insert_eq.
Qed.

(** With no row on either side [report] raises [ZeroDivisionError]
    once the file is open: a first report leaves the file of the run
    empty, and the flag [first_run] is cleared all the same. *)
Theorem report_zero_counts_leaves_empty_file
  (finite_repr : bool -> positive -> Z -> string) (repr_list : list string -> string)
  (format_5f : spec_float -> string) (table : DB_Table) (metric_dict : Counts) (w : World) :
  tot_source metric_dict = 0 -> tot_snow metric_dict = 0 -> first_run w = true ->
  exists w', report finite_repr repr_list format_5f table metric_dict w
             = (Err ZeroDivisionError, w') /\
    reports w' !! report_path w = Some "" /\ first_run w' = false.
Proof.
  intros Hs Hr Hfirst.
  unfold report, mbind, M_bind, get_world, open_report, lift, write_report.
  fold (report_path w). unfold report_text. rewrite Hs, Hr, Hfirst. simpl.
  eexists. split; [reflexivity|]. simpl. by rewrite lookup_insert_eq.
Qed.

Lemma report_zero_counts_leaves_empty_file_witness :
  let table := {| name := "T"; source := "S"; column_mapping := ∅; column_rules := [];
                  primary_key := ["id"]; source_df := Fixture.ids []; snow_df := Fixture.ids [];
                  common_columns := ["id"] |} in
  let metric_dict := {| tot_source := 0; tot_snow := 0; unique_source := 0; unique_snow := 0;
                        source_duplicates := 0; snow_duplicates := 0; identical_records := 0;
                        column_overlap_text := ""; runtime := S754_zero false |} in
  let w := {| location := "."; today := "20201207"; current_time := "181243";
              first_run := true; csv_files := ∅;
              reports := {[ "./OUTPUT/REPORT_STATS/20201207/report181243.txt" := "old" ]} |} in
  exists w', report Fixture.no_repr (fun _ => "[]") (fun _ => "") table metric_dict w
             = (Err ZeroDivisionError, w') /\
    reports w' !! report_path w = Some "" /\ first_run w' = false.
Proof.
  intros table metric_dict w.
  apply report_zero_counts_leaves_empty_file; reflexivity.
Defined.

Lemma report_appends_witness :
  let table := {| name := "T"; source := "S"; column_mapping := ∅; column_rules := [];
                  primary_key := ["id"]; source_df := Fixture.ids []; snow_df := Fixture.ids [];
                  common_columns := ["id"] |} in
  let metric_dict := {| tot_source := 3; tot_snow := 2; unique_source := 1; unique_snow := 0;
                        source_duplicates := 0; snow_duplicates := 0; identical_records := 2;
                        column_overlap_text := ""; runtime := S754_zero false |} in
  let w := {| location := "."; today := "20201207"; current_time := "181243";
              first_run := false; csv_files := ∅;
              reports := {[ "./OUTPUT/REPORT_STATS/20201207/report181243.txt" := "old" ]} |} in
  exists text w',
    report_text Fixture.no_repr (fun _ => "[]") (fun _ => "") table metric_dict = Ok text /\
    report Fixture.no_repr (fun _ => "[]") (fun _ => "") table metric_dict w = (Ok (), w') /\
    reports w' !! report_path w = Some ("old" +:+ text).
Proof.
  intros table metric_dict w.
  destruct (report_text Fixture.no_repr (fun _ => "[]") (fun _ => "") table metric_dict)
    as [text|e] eqn:Htext.
  - destruct (report_appends _ _ _ table metric_dict w text Htext) as (w' & H1 & H2).
    exists text, w'. split; [reflexivity|]. split; [exact H1 | exact H2].
  - exfalso. vm_compute in Htext. discriminate Htext.
Defined.

(** ** The comparison pass *)

Lemma duplicate_rows_total left right on m :
  merge left right on = Ok m ->
  (exists d, duplicate_rows left on = Ok d) /\ (exists d, duplicate_rows right on = Ok d).
Proof.
  unfold merge. destruct (all_columns on (columns left)) eqn:Hl; [|done].
  destruct (all_columns on (columns right)) eqn:Hr; [|done]. simpl.
  destruct (is_nil on) eqn:Hon; [done|]. intros _.
  unfold duplicate_rows, duplicated. rewrite Hl, Hr, Hon. simpl.
  split.
  - destruct (_ || _); simpl; eauto.
  - destruct (_ || _); simpl; eauto.
Qed.

(** A primary key that names a column one of the frames does not have
    makes [compare] raise [KeyError] before anything is written. *)
Theorem compare_missing_key_column
  (finite_repr : bool -> positive -> Z -> string) (repr_list : list string -> string)
  (format_5f : spec_float -> string) (table : DB_Table) (elapsed : spec_float) (w : World) :
  all_columns (primary_key table) (columns (source_df table))
  && all_columns (primary_key table) (columns (snow_df table)) = false ->
  compare finite_repr repr_list format_5f table elapsed w = (Err KeyError, w).
Proof.
  intros H. unfold compare, mbind, M_bind, lift, merge. by rewrite H.
Qed.

Lemma compare_missing_key_column_witness :
  let table := {| name := "T"; source := "S"; column_mapping := ∅; column_rules := [];
                  primary_key := ["key"]; source_df := Fixture.ids ["1"];
                  snow_df := Fixture.ids ["1"]; common_columns := ["id"] |} in
  let w := {| location := "."; today := "20201207"; current_time := "181243";
              first_run := true; csv_files := ∅; reports := ∅ |} in
  compare Fixture.no_repr (fun _ => "[]") (fun _ => "") table (S754_zero false) w
  = (Err KeyError, w).
Proof. intros table w. apply compare_missing_key_column. reflexivity. Defined.



(** A frame that has rows, with text in every cell of the key columns:
    the key columns of a frame as [read_csv] loads it, when no key is
    missing and no rule has turned the keys into numbers. *)
Definition text_keys (df : DataFrame) (on : list string) : bool :=
  negb (is_nil (rows df)) &&
  forallb (fun row =>
             forallb (fun c => match cell (columns df) row c with
                               | VStr _ => true
                               | _ => false
                               end) on)
          (rows df).

(** When the keys are text on both sides, the join matches no row and
    a common column stands outside the primary key, [compare] raises
    [ZeroDivisionError] in the overlap analysis: the [.csv] outputs are
    written, the (empty) set of identical rows included, and no report
    is. *)
Theorem compare_without_match_writes_no_report
  (finite_repr : bool -> positive -> Z -> string) (repr_list : list string -> string)
  (format_5f : spec_float -> string) (table : DB_Table) (elapsed : spec_float) (w : World)
  (m : Merged) :
  text_keys (source_df table) (primary_key table) = true ->
  text_keys (snow_df table) (primary_key table) = true ->
  merge (source_df table) (snow_df table) (primary_key table) = Ok m ->
  m_rows (with_indicator both m) = [] ->
  (forall c, c ∈ common_columns table ->
     c ∈ columns (source_df table) /\ c ∈ columns (snow_df table)) ->
  (exists c, c ∈ common_columns table /\ c ∉ primary_key table) ->
  exists w', compare finite_repr repr_list format_5f table elapsed w
             = (Err ZeroDivisionError, w') /\
    reports w' = reports w /\ first_run w' = first_run w /\
    csv_files w' !! "C:\\Users\debar\Desktop\identical.csv"
    = Some (CsvMerged (with_indicator both m)).
Proof.
  intros _ _ Hm Hrows Hcommon Hex.
  destruct (duplicate_rows_total _ _ _ _ Hm) as [[d1 Hd1] [d2 Hd2]].
  assert (Hov : column_overlap finite_repr (with_indicator both m) table = Err ZeroDivisionError).
  { unfold column_overlap, column_overlap_items.
    rewrite (column_match_dict_empty _ _ _ [] Hrows); [done | | done].
    intros c Hc Hpk. destruct (Hcommon c Hc) as [Hs Hw].
    rewrite (merge_Ok _ _ _ _ Hm). by repeat split. }
  unfold compare, mbind, M_bind, lift, unique_records, duplicate_records, get_world, to_csv,
    column_detail, mret, M_ret.
  rewrite Hm, Hd1, Hd2, Hov. simpl.
  eexists. split; [reflexivity|]. simpl. split; [done|]. split; [done|].
  by rewrite lookup_insert_eq.
Qed.

Lemma compare_without_match_writes_no_report_witness :
  let table := {| name := "T"; source := "S"; column_mapping := ∅; column_rules := [];
                  primary_key := ["id"];
                  source_df := Fixture.id_val [("1", "A")];
                  snow_df := Fixture.id_val [("2", "B")];
                  common_columns := ["id"; "val"] |} in
  let w := {| location := "."; today := "20201207"; current_time := "181243";
              first_run := true; csv_files := ∅; reports := ∅ |} in
  exists m w',
    merge (source_df table) (snow_df table) (primary_key table) = Ok m /\
    compare Fixture.no_repr (fun _ => "[]") (fun _ => "") table (S754_zero false) w
    = (Err ZeroDivisionError, w') /\
    reports w' = reports w /\ first_run w' = first_run w /\
    csv_files w' !! "C:\\Users\debar\Desktop\identical.csv"
    = Some (CsvMerged (with_indicator both m)).
Proof.
  intros table w. eexists.
  destruct (compare_without_match_writes_no_report Fixture.no_repr (fun _ => "[]")
              (fun _ => "") table (S754_zero false) w _ eq_refl eq_refl eq_refl) as (w' & H);
    [reflexivity | | | exists w'; split; [reflexivity | exact H]].
  - intros c Hc. simpl in *. rewrite !elem_of_cons in Hc.
    destruct Hc as [-> | [-> | Hc]]; [| | by apply elem_of_nil in Hc];
      split; by apply (bool_decide_unpack _).
  - exists "val". simpl. split; [by apply (bool_decide_unpack _)|].
    intros H. by apply (bool_decide_pack _) in H.
Defined.

(** Two empty extracts never get a report: when [compare] reaches
    [report], the percent variance divides by zero. *)
Theorem compare_empty_extracts_raises
  (finite_repr : bool -> positive -> Z -> string) (repr_list : list string -> string)
  (format_5f : spec_float -> string) (table : DB_Table) (elapsed : spec_float) (w : World) :
  rows (source_df table) = [] -> rows (snow_df table) = [] ->
  exists e w', compare finite_repr repr_list format_5f table elapsed w = (Err e, w').
Proof.
  intros Hs Hr.
  unfold compare, mbind, M_bind, lift, unique_records, duplicate_records, get_world, to_csv,
    column_detail, mret, M_ret.
  destruct (merge _ _ _) as [m|e]; [|eauto]. simpl.
  destruct (duplicate_rows (source_df table) _) as [d1|e]; [|eauto].
  destruct (duplicate_rows (snow_df table) _) as [d2|e]; [|eauto]. simpl.
  destruct (column_overlap _ _ _) as [ov|e]; [|eauto].
  destruct (float_round elapsed 2) as [rt|e]; [|eauto].
  unfold report, mbind, M_bind, lift, get_world, open_report, report_text. simpl.
  rewrite Hs, Hr. simpl. eauto.
Qed.

Lemma compare_empty_extracts_raises_witness :
  let table := {| name := "T"; source := "S"; column_mapping := ∅; column_rules := [];
                  primary_key := ["id"]; source_df := Fixture.ids [];
                  snow_df := Fixture.ids []; common_columns := ["id"] |} in
  let w := {| location := "."; today := "20201207"; current_time := "181243";
              first_run := true; csv_files := ∅; reports := ∅ |} in
  exists e w',
    compare Fixture.no_repr (fun _ => "[]") (fun _ => "") table (S754_zero false) w
    = (Err e, w').
Proof. intros table w. apply compare_empty_extracts_raises; reflexivity. Defined.

(** ** Output files *)

Lemma str_append_inj_l (a u v : string) : a +:+ u = a +:+ v -> u = v.
Proof.
  induction a as [|c a IH]; [done|].
  change (String c (a +:+ u) = String c (a +:+ v) -> u = v). intros [= H]. by apply IH.
Qed.

Lemma str_append_same_length (a b u v : string) :
  String.length a = String.length b -> a +:+ u = b +:+ v -> a = b.
Proof.
  revert b. induction a as [|c a IH]; intros [|d b]; simpl; try done.
  change (S (String.length a) = S (String.length b) ->
          String c (a +:+ u) = String d (b +:+ v) -> String c a = String d b).
  intros [= Hlen] [= -> H]. f_equal. by apply IH.
Qed.

Lemma str_length_append (a b : string) :
  String.length (a +:+ b) = (String.length a + String.length b)%nat.
Proof.
  induction a as [|c a IH]; [done|].
  change (S (String.length (a +:+ b)) = S (String.length a + String.length b)). by rewrite IH.
Qed.

(** The two files of a kind ([UNIQUE] or [DUPLICATES]) of one table
    are the same file exactly when the source is called [SNOWFLAKE]. *)
Lemma output_paths_collide (loc kind table_source table_name : string) :
  loc +:+ kind +:+ table_source +:+ "/" +:+ table_name +:+ ".csv"
  = loc +:+ kind +:+ "SNOWFLAKE/" +:+ table_name +:+ ".csv"
  <-> table_source = "SNOWFLAKE".
Proof.
  split; [|by intros ->].
  intros H%str_append_inj_l%str_append_inj_l.
  change ("SNOWFLAKE/" +:+ table_name +:+ ".csv")
    with ("SNOWFLAKE" +:+ "/" +:+ table_name +:+ ".csv") in H.
  apply (str_append_same_length _ _ _ _) in H; [done|].
  apply (f_equal String.length) in H. rewrite !str_length_append in H.
  change (String.length "SNOWFLAKE") with 9%nat in *. lia.
Qed.

(** [unique_records] returns the numbers of source-only and of
    reference-only rows and writes the two sets to two files.  For a
    source called [SNOWFLAKE] the two files are one, and the
    reference-only rows overwrite the source-only rows. *)
Theorem unique_records_outputs
  (merged_df : Merged) (table_source table_name : string) (w : World) :
  exists w',
    unique_records merged_df table_source table_name w
    = (Ok (len (m_rows (with_indicator left_only merged_df)),
           len (m_rows (with_indicator right_only merged_df))), w') /\
    csv_files w' !! (location w +:+ "/OUTPUT/UNIQUE/" +:+ "SNOWFLAKE/" +:+ table_name +:+ ".csv")
    = Some (CsvMerged (with_indicator right_only merged_df)) /\
    csv_files w' !! (location w +:+ "/OUTPUT/UNIQUE/" +:+ table_source +:+ "/" +:+ table_name +:+ ".csv")
    = Some (CsvMerged (with_indicator
              (if String.eqb table_source "SNOWFLAKE" then right_only else left_only)
              merged_df)) /\
    reports w' = reports w /\ first_run w' = first_run w.
Proof.
  unfold unique_records, mbind, M_bind, get_world, to_csv, mret, M_ret. simpl.
  eexists. split; [reflexivity|]. simpl.
  split; [apply lookup_insert_eq|]. split; [|done].
  destruct (String.eqb_spec table_source "SNOWFLAKE") as [->|Hne].
  - apply lookup_insert_eq.
  - rewrite lookup_insert_ne, lookup_insert_eq; [done|].
    intros H. apply Hne. symmetry in H.
    by apply (output_paths_collide (location w) "/OUTPUT/UNIQUE/" table_source table_name).
Qed.

(** [duplicate_records] returns the numbers of duplicate rows of the
    two sides and writes the two sets to two files, with the same
    collision for a source called [SNOWFLAKE]. *)
Theorem duplicate_records_outputs
  (table_source table_name : string) (source_dupes snow_dupes : DataFrame) (w : World) :
  exists w',
    duplicate_records table_source table_name source_dupes snow_dupes w
    = (Ok (len (rows source_dupes), len (rows snow_dupes)), w') /\
    csv_files w' !! (location w +:+ "/OUTPUT/DUPLICATES/" +:+ "SNOWFLAKE/" +:+ table_name +:+ ".csv")
    = Some (CsvFrame snow_dupes) /\
    csv_files w' !! (location w +:+ "/OUTPUT/DUPLICATES/" +:+ table_source +:+ "/" +:+ table_name +:+ ".csv")
    = Some (CsvFrame (if String.eqb table_source "SNOWFLAKE" then snow_dupes else source_dupes)) /\
    reports w' = reports w /\ first_run w' = first_run w.
Proof.
  unfold duplicate_records, mbind, M_bind, get_world, to_csv, mret, M_ret. simpl.
  eexists. split; [reflexivity|]. simpl.
  split; [apply lookup_insert_eq|]. split; [|done].
  destruct (String.eqb_spec table_source "SNOWFLAKE") as [->|Hne].
  - apply lookup_insert_eq.
  - rewrite lookup_insert_ne, lookup_insert_eq; [done|].
    intros H. apply Hne. symmetry in H.
    by apply (output_paths_collide (location w) "/OUTPUT/DUPLICATES/" table_source table_name).
Qed.

(** ** More on the overlap analyser *)

Lemma column_match_dict_keys_only df pk cols : forall d,
  (forall c, c ∈ cols -> c ∈ pk) -> column_match_dict df pk cols d = Ok d.
Proof.
  induction cols as [|c cols IH]; intros d H; simpl; [done|].
  unfold has_column. rewrite bool_decide_eq_true_2 by (apply H; by left).
  apply IH. intros c' Hc'. apply H. by right.
Qed.

(** When every common column belongs to the primary key the analyser
    has nothing to compare: it returns the empty text and divides
    nothing, even on an empty matched set. *)
Theorem column_overlap_key_columns_only
  (finite_repr : bool -> positive -> Z -> string) (df : Merged) (table : DB_Table) :
  (forall c, c ∈ common_columns table -> c ∈ primary_key table) ->
  column_overlap finite_repr df table = Ok "".
Proof.
  intros H. unfold column_overlap, column_overlap_items.
  by rewrite (column_match_dict_keys_only _ _ _ [] H).
Qed.

Lemma column_overlap_key_columns_only_witness :
  column_overlap Fixture.no_repr
    {| m_xcols := ["id"]; m_ycols := ["id"]; m_on := ["id"]; m_rows := [] |}
    {| name := "T"; source := "S"; column_mapping := ∅; column_rules := [];
       primary_key := ["id"]; source_df := Fixture.ids ["1"]; snow_df := Fixture.ids ["2"];
       common_columns := ["id"] |}
  = Ok "".
Proof.
  apply column_overlap_key_columns_only. simpl. intros c Hc. exact Hc.
Defined.

Definition float_1 : spec_float := S754_finite false 4503599627370496 (-52).

(** [n / n] is the float 1.0. *)
Lemma int_truediv_self n : 0 < n -> int_truediv n n = Ok float_1.
Proof.
  intros Hn. unfold int_truediv.
  destruct (Z.eqb_spec n 0) as [|_]; [lia|].
  replace (n * Z.sgn n) with n by (rewrite Z.sgn_pos; lia).
  replace (Z.abs n) with n by lia.
  unfold float_of_ratio. destruct n as [|p|p]; [lia | | lia].
  change (Z.abs (Z.pos p)) with (Z.pos p). change (Z.pos p <? 0) with false.
  unfold SFdiv_core_binary.
  replace (Zdigits2 (Z.pos p) + 0 - (Zdigits2 (Z.pos p) + 0)) with 0 by lia.
  change (Z.min (fexp prec emax 0) (0 - 0)) with (-53).
  change (0 - 0 - -53) with 53.
  change (match 53 with 0 => Z.pos p | Z.pos _ => Z.shiftl (Z.pos p) 53 | Z.neg _ => 0 end)
    with (Z.shiftl (Z.pos p) 53).
  assert (Hd : Z.div_eucl (Z.shiftl (Z.pos p) 53) (Z.pos p) = (2 ^ 53, 0)).
  { transitivity (Z.shiftl (Z.pos p) 53 / Z.pos p, Z.shiftl (Z.pos p) 53 mod Z.pos p).
    - unfold Z.div, Z.modulo. by destruct (Z.div_eucl _ _).
    - rewrite Z.shiftl_mul_pow2, Z.mul_comm by lia.
      rewrite Z.div_mul, Z.mod_mul by lia. done. }
  rewrite Hd.
  unfold new_location. destruct (Z.even (Z.pos p)); reflexivity.
Qed.

(** A column on which every matched row agrees is reported as 100.0,
    one on which none agrees as 0.0. *)
Theorem match_percent_extremes (df : Merged) (mask : list bool) :
  m_rows df <> [] ->
  (count_true mask = len (m_rows df) -> match_percent df mask = Ok float_100) /\
  (count_true mask = 0 -> match_percent df mask = Ok (S754_zero false)).
Proof.
  intros Hrows. unfold match_percent, len.
  assert (Hn : 0 < Z.of_nat (length (m_rows df))).
  { destruct (m_rows df); [done | simpl; lia]. }
  split; intros ->.
  - rewrite int_truediv_self by done. reflexivity.
  - unfold int_truediv. destruct (Z.eqb_spec (Z.of_nat (length (m_rows df))) 0); [lia|].
    reflexivity.
Qed.

Lemma match_percent_extremes_witness :
  match_percent Fixture.four_matched [true; true; true; true] = Ok float_100 /\
  match_percent Fixture.four_matched [false; false; false; false] = Ok (S754_zero false).
Proof.
  split.
  - apply (match_percent_extremes Fixture.four_matched [true; true; true; true]);
      [discriminate | reflexivity].
  - apply (match_percent_extremes Fixture.four_matched [false; false; false; false]);
      [discriminate | reflexivity].
Defined.

Lemma SFltb_irrefl v : SFltb v v = false.
Proof.
  unfold SFltb. destruct v as [s|s| |s m e]; simpl; [done | by destruct s | done |].
  destruct s; rewrite Z.compare_refl; change (Pos.compare_cont Eq m m) with (Pos.compare m m);
    by rewrite Pos.compare_refl.
Qed.

Lemma insert_item_stable (v : spec_float) x l :
  filter (fun it : string * spec_float => it.2 = v) (insert_item x l)
  = filter (fun it : string * spec_float => it.2 = v) (x :: l).
Proof.
  induction l as [|y l IH]; [done|]. cbn [insert_item].
  destruct (SFltb y.2 x.2) eqn:E; [|done].
  destruct (decide (x.2 = v)) as [Hx|Hx].
  - assert (Hy : y.2 <> v).
    { intros Hy. rewrite Hx, Hy, SFltb_irrefl in E. done. }
    rewrite (filter_cons_False _ y) by done.
    rewrite IH. rewrite !(filter_cons_True _ x) by done.
    by rewrite (filter_cons_False _ y).
  - rewrite (filter_cons_False _ x (y :: l)) by done.
    destruct (decide (y.2 = v)) as [Hy|Hy].
    + rewrite !(filter_cons_True _ y) by done. rewrite IH.
      by rewrite (filter_cons_False _ x).
    + rewrite !(filter_cons_False _ y) by done. rewrite IH.
      by rewrite (filter_cons_False _ x).
Qed.

(** The sort of the report is stable: columns with the same percentage
    are listed in the order in which they were computed. *)
Theorem sorted_items_stable (v : spec_float) (d : list (string * spec_float)) :
  filter (fun it : string * spec_float => it.2 = v) (sorted_items d)
  = filter (fun it : string * spec_float => it.2 = v) d.
Proof.
  induction d as [|x d IH]; [done|].
  change (sorted_items (x :: d)) with (insert_item x (sorted_items d)).
  rewrite insert_item_stable.
  destruct (decide (x.2 = v)).
  - rewrite !(filter_cons_True _ x) by done. by rewrite IH.
  - rewrite !(filter_cons_False _ x) by done. by rewrite IH.
Qed.

(** ** More on the percent variance *)

(** The variance does not depend on which side is called the source. *)
Theorem percent_variance_symmetric (tot_source tot_snow : Z) :
  percent_variance tot_source tot_snow = percent_variance tot_snow tot_source.
Proof.
  unfold percent_variance. rewrite (Z.add_comm tot_snow tot_source).
  replace (Z.abs (tot_snow - tot_source)) with (Z.abs (tot_source - tot_snow)) by lia.
  reflexivity.
Qed.

(** Rounding a mantissa that is not negative gives a float of the sign
    asked for, never [nan]. *)
Lemma binary_round_aux_sign s m e l : 0 <= m ->
  match binary_round_aux prec emax s m e l with
  | S754_zero s' | S754_infinity s' | S754_finite s' _ _ => s' = s
  | S754_nan => False
  end.
Proof.
  intros Hm. unfold binary_round_aux.
  pose proof (shr_fexp_spec m e l Hm) as H1.
  destruct (shr_fexp prec emax m e l) as [s1 e1]. destruct H1 as (Hs1 & _ & _).
  set (m2 := round_nearest_even (shr_m s1) (loc_of_shr_record s1)).
  pose proof (round_nearest_even_spec (shr_m s1) (loc_of_shr_record s1) Hs1) as Hm2.
  fold m2 in Hm2.
  pose proof (shr_fexp_spec m2 e1 loc_Exact ltac:(lia)) as H2.
  destruct (shr_fexp prec emax m2 e1 loc_Exact) as [s2 e2]. destruct H2 as (Hs2 & _ & _).
  destruct (shr_m s2) as [|q|q]; [done | | lia].
  by destruct (_ <=? _).
Qed.

(** With as many rows on either side the variance is 0.0. *)
Theorem percent_variance_equal_counts (n : Z) :
  0 < n -> n + n < 2 ^ 900 -> percent_variance n n = Ok (S754_zero false).
Proof.
  intros Hn Hlt. unfold percent_variance.
  destruct (int_truediv_half (n + n)) as (half & Hhalf & Hnz); [lia|].
  rewrite Hhalf. cbn [mbind result_bind]. rewrite Z.sub_diag.
  change (float_of_int (Z.abs 0)) with (Ok (S754_zero false) : result spec_float).
  cbn [mbind result_bind]. unfold float_truediv. rewrite Hnz. cbn [mbind result_bind].
  assert (Hsign : match half with
                  | S754_finite s' _ _ => s' = false
                  | _ => False
                  end).
  { revert Hhalf Hnz. unfold int_truediv. change (2 =? 0) with false. cbv iota.
    change (Z.sgn 2) with 1. change (Z.abs 2) with 2. rewrite Z.mul_1_r.
    unfold float_of_ratio. destruct (n + n) as [|p|p] eqn:E; [lia | | lia].
    change (Z.abs (Z.pos p)) with (Z.pos p). change (Z.pos p <? 0) with false.
    destruct (SFdiv_core_binary prec emax (Z.pos p) 0 2 0) as [[q e] l] eqn:Ediv.
    assert (Hq : 0 <= q).
    { revert Ediv. unfold SFdiv_core_binary.
      set (m' := match _ with 0 => _ | Z.pos _ => _ | Z.neg _ => _ end).
      assert (Hm' : 0 <= m').
      { subst m'. destruct (_ - _ - _); [lia | apply Z.shiftl_nonneg; lia | lia]. }
      pose proof (Z_div_mod m' 2 ltac:(lia)) as Hdiv.
      destruct (Z.div_eucl m' 2) as [q' r']. intros [= <- _ _]. lia. }
    pose proof (binary_round_aux_sign false q e l Hq) as Hs.
    destruct (binary_round_aux prec emax false q e l); simpl; intros Hh Hz; try done;
      injection Hh as <-; done. }
  destruct half as [s|s| |s m e]; try done. subst s. reflexivity.
Qed.

Lemma percent_variance_equal_counts_witness : percent_variance 7 7 = Ok (S754_zero false).
Proof. apply percent_variance_equal_counts; [lia | reflexivity]. Defined.

(** ** The query file *)

(** A line of a statement that does not end it. *)
Definition body_line (line : string) : Prop :=
  String.prefix "--" line = false /\ contains ";" line = false.

Lemma parse_lines_skip pre : forall rest query queries,
  Forall (fun line => String.prefix "--" line = false) pre ->
  parse_lines (pre ++ rest) "" query queries = parse_lines rest "" query queries.
Proof.
  induction pre as [|line pre IH]; intros rest query queries H; [done|].
  apply Forall_cons in H as [Hl Hpre].
  rewrite <- app_comm_cons. cbn [parse_lines]. rewrite Hl. simpl. by apply IH.
Qed.

Lemma parse_lines_body body : forall rest key query queries,
  key <> "" -> Forall body_line body ->
  parse_lines (body ++ rest) key query queries
  = parse_lines rest key (query +:+ join_lines body) queries.
Proof.
  induction body as [|line body IH]; intros rest key query queries Hkey H.
  - simpl. by rewrite str_append_nil_r.
  - apply Forall_cons in H as [[Hl Hs] Hbody].
    rewrite <- app_comm_cons. cbn [parse_lines]. rewrite Hl, Hs.
    apply String.eqb_neq in Hkey as Hk. rewrite Hk. simpl.
    rewrite IH by done. by rewrite str_append_assoc.
Qed.

(** Lines before the first line that starts with [--] are ignored. *)
Theorem parse_input_sql_ignores_preamble (pre rest : list string) :
  Forall (fun line => String.prefix "--" line = false) pre ->
  parse_input_sql (pre ++ rest) = parse_input_sql rest.
Proof. apply parse_lines_skip. Qed.

Lemma parse_input_sql_ignores_preamble_witness :
  parse_input_sql (["select 0;" +:+ nl] ++ ["--S|T" +:+ nl; "select 1;" +:+ nl])
  = parse_input_sql ["--S|T" +:+ nl; "select 1;" +:+ nl].
Proof. apply parse_input_sql_ignores_preamble. repeat constructor. Defined.

(** A statement that spans several lines is stored under its key with
    the line ends between its lines still in it: only those at the two
    ends of the text are stripped. *)
Theorem parse_input_sql_statement_spans_lines (key_line : string) (body : list string)
  (last_line : string) :
  String.prefix "--" key_line = true ->
  strip nl (str_drop 2 key_line) <> "" ->
  Forall body_line body ->
  String.prefix "--" last_line = false -> contains ";" last_line = true ->
  parse_input_sql (key_line :: body ++ [last_line])
  = [(strip nl (str_drop 2 key_line), strip nl (join_lines body +:+ last_line))].
Proof.
  intros Hk Hkey Hbody Hl Hs. unfold parse_input_sql. cbn [parse_lines]. rewrite Hk.
  rewrite parse_lines_body by done. cbn [parse_lines]. rewrite Hl, Hs.
  apply String.eqb_neq in Hkey. rewrite Hkey. reflexivity.
Qed.

Lemma parse_input_sql_statement_spans_lines_witness :
  parse_input_sql (("--S|T" +:+ nl) :: ["select *" +:+ nl] ++ ["from t;" +:+ nl])
  = [("S|T", "select *" +:+ nl +:+ "from t;")].
Proof.
  apply (parse_input_sql_statement_spans_lines ("--S|T" +:+ nl) ["select *" +:+ nl]
           ("from t;" +:+ nl)); try reflexivity.
  - discriminate.
  - repeat constructor.
Defined.

(** A key line that comes before the statement of the previous key is
    ended takes the text gathered so far with it: the statement stored
    under the new key starts with the unfinished one, and nothing is
    stored under the old key. *)
Theorem parse_input_sql_unfinished_statement_carries_over
  (key_line1 : string) (body1 : list string) (key_line2 : string) (body2 : list string)
  (last_line : string) :
  String.prefix "--" key_line1 = true -> strip nl (str_drop 2 key_line1) <> "" ->
  Forall body_line body1 ->
  String.prefix "--" key_line2 = true -> strip nl (str_drop 2 key_line2) <> "" ->
  Forall body_line body2 ->
  String.prefix "--" last_line = false -> contains ";" last_line = true ->
  parse_input_sql (key_line1 :: body1 ++ key_line2 :: body2 ++ [last_line])
  = [(strip nl (str_drop 2 key_line2),
      strip nl (join_lines body1 +:+ join_lines body2 +:+ last_line))].
Proof.
  intros Hk1 Hkey1 Hb1 Hk2 Hkey2 Hb2 Hl Hs. unfold parse_input_sql.
  cbn [parse_lines]. rewrite Hk1. rewrite parse_lines_body by done.
  cbn [parse_lines]. rewrite Hk2. rewrite parse_lines_body by done.
  cbn [parse_lines]. rewrite Hl, Hs.
  apply String.eqb_neq in Hkey2. rewrite Hkey2.
  rewrite !str_append_assoc. reflexivity.
Qed.

Lemma parse_input_sql_unfinished_statement_carries_over_witness :
  parse_input_sql
    (("--S|A" +:+ nl) :: ["select 1" +:+ nl] ++ ("--S|B" +:+ nl) :: [] ++ ["select 2;" +:+ nl])
  = [("S|B", "select 1" +:+ nl +:+ "select 2;")].
Proof.
  apply (parse_input_sql_unfinished_statement_carries_over ("--S|A" +:+ nl)
           ["select 1" +:+ nl] ("--S|B" +:+ nl) [] ("select 2;" +:+ nl)); try reflexivity.
  - discriminate.
  - repeat constructor.
  - discriminate.
  - constructor.
Defined.

Lemma dict_set_key_elem {V} k (v : V) d x :
  x ∈ (dict_set k v d).*1 -> x = k \/ x ∈ d.*1.
Proof.
  rewrite dict_set_keys. case_bool_decide; [by right|].
  intros [Hx | Hx%list_elem_of_singleton]%elem_of_app; [by right | by left].
Qed.

Lemma parse_lines_keys (all : list string) lines : forall key query queries k,
  lines ⊆ all ->
  (key <> "" -> exists line, line ∈ all /\ String.prefix "--" line = true /\
                 key = strip nl (str_drop 2 line)) ->
  (forall k', k' ∈ queries.*1 ->
     k' <> "" /\ exists line, line ∈ all /\ String.prefix "--" line = true /\
                   k' = strip nl (str_drop 2 line)) ->
  k ∈ (parse_lines lines key query queries).*1 ->
  k <> "" /\ exists line, line ∈ all /\ String.prefix "--" line = true /\
               k = strip nl (str_drop 2 line).
Proof.
  induction lines as [|line rest IH]; intros key query queries k Hsub Hkey Hq; cbn [parse_lines].
  - apply Hq.
  - assert (Hrest : rest ⊆ all) by (intros x Hx; apply Hsub; by right).
    destruct (String.prefix "--" line) eqn:Hp.
    + apply IH; [done | | done]. intros _. exists line. split; [apply Hsub; by left | done].
    + destruct (String.eqb_spec key "") as [->|Hne]; simpl.
      * by apply IH.
      * destruct (contains ";" line).
        -- apply IH; [done | done |].
           intros k' [-> | Hk']%dict_set_key_elem; [|by apply Hq].
           split; [done | by apply Hkey].
        -- by apply IH.
Qed.

(** Every key of the result is the text of a line that starts with
    [--], without the two dashes and the line end, and is not empty. *)
Theorem parse_input_sql_keys (lines : list string) (k : string) :
  k ∈ (parse_input_sql lines).*1 ->
  k <> "" /\ exists line, line ∈ lines /\ String.prefix "--" line = true /\
               k = strip nl (str_drop 2 line).
Proof.
  apply parse_lines_keys; [done | done |].
  intros k' H. by apply elem_of_nil in H.
Qed.

Lemma parse_input_sql_keys_witness :
  "S|T" <> "" /\ exists line, line ∈ ["--S|T" +:+ nl; "select 1;" +:+ nl] /\
                   String.prefix "--" line = true /\ "S|T" = strip nl (str_drop 2 line).
Proof.
  apply parse_input_sql_keys. apply (bool_decide_unpack _). reflexivity.
Defined.
